(** * ATM cell filter: header denylist, token-bucket policer, payload signatures

    A shallow embedding of [filtering.py], [atm_sim.py] and [app.py].

    Modelling conventions.
    - Python [float] values (rates, capacities, token counts, timestamps,
      time offsets) are exact rationals [Q]: rounding, infinities and NaN are
      outside the model.  Comparisons are the boolean tests [Qltb], [Qleb];
      values that the code only copies are compared with Leibniz equality,
      values it computes along different paths with [==].
    - Where rounding decides what the code does, the same code is embedded a
      second time on binary64 floats (the definitions whose names end in
      [64]), with IEEE 754 arithmetic as Python has it.
    - Python [int] is [Z], [str] is [string], [None]-able values are [option].
    - A [dict] is a [gmap], a [set] a [gset]; [defaultdict(int)] reads 0 at
      an absent key.
    - Mutable objects are passed explicitly: every method returns the new
      state of the object it mutates next to its result. *)

From Stdlib Require Import QArith Qminmax Lqa Sorted.
From Stdlib Require Import PrimFloat Uint63 SpecFloat FloatOps FloatAxioms.
From stdpp Require Import gmap strings list fin_maps pretty.

Local Open Scope Q_scope.

(** ** Float comparisons *)

Definition Qleb (x y : Q) : bool := Qle_bool x y.
Definition Qltb (x y : Q) : bool := negb (Qle_bool y x).

(** Python's two-argument [min(a, b)]: [b] when [b < a], else [a]. *)
Definition py_min (a b : Q) : Q := if Qltb b a then b else a.

(** ** filtering.py *)

Definition FlowKey : Type := (Z * Z)%type.

(** [class ATMCell] *)
Record ATMCell := mkCell {
  vpi : Z;
  vci : Z;
  payload : string;
  is_malicious : bool;
  timestamp : Q
}.

Definition header (cell : ATMCell) : FlowKey := (vpi cell, vci cell).

(** [class TokenBucket] *)
Record TokenBucket := mkBucket {
  rate : Q;
  capacity : Q;
  tokens : Q;
  last_time : option Q
}.

(** [TokenBucket.__init__] *)
Definition TokenBucket_init (rate_tokens_per_sec burst_capacity : Q) : TokenBucket :=
  {| rate := rate_tokens_per_sec;
     capacity := burst_capacity;
     tokens := burst_capacity;
     last_time := None |}.

Definition set_last_time (b : TokenBucket) (t : Q) : TokenBucket :=
  {| rate := rate b; capacity := capacity b; tokens := tokens b; last_time := Some t |}.

Definition set_tokens (b : TokenBucket) (x : Q) : TokenBucket :=
  {| rate := rate b; capacity := capacity b; tokens := x; last_time := last_time b |}.

(** [TokenBucket.allow]: the result and the bucket after the call. *)
Definition allow (self : TokenBucket) (now : Q) : bool * TokenBucket :=
  let '(self, last) := match last_time self with
                       | None => (set_last_time self now, now)
                       | Some l => (self, l)
                       end in
  let elapsed := now - last in
  let self := if Qltb 0 elapsed
              then set_last_time
                     (set_tokens self (py_min (capacity self) (tokens self + elapsed * rate self)))
                     now
              else self in
  if Qleb 1 (tokens self)
  then (true, set_tokens self (tokens self - 1))
  else (false, self).

(** [class HeaderRule]: the denylist is a set of (vpi, vci) pairs. *)
Record HeaderRule := mkHeaderRule { deny_list : gset FlowKey }.

Definition HeaderRule_init (deny : option (list FlowKey)) : HeaderRule :=
  {| deny_list := match deny with
                  | Some ((_ :: _) as l) => list_to_set l
                  | _ => ∅
                  end |}.

Definition HeaderRule_check (self : HeaderRule) (cell : ATMCell) : bool :=
  bool_decide (header cell ∈ deny_list self).

Definition HeaderRule_add (self : HeaderRule) (vpi_vci : FlowKey) : HeaderRule :=
  {| deny_list := {[vpi_vci]} ∪ deny_list self |}.

Definition HeaderRule_remove (self : HeaderRule) (vpi_vci : FlowKey) : HeaderRule :=
  {| deny_list := deny_list self ∖ {[vpi_vci]} |}.

(** Python's [sig in text] on strings: [sig] occurs as a contiguous
    substring; the empty string occurs in every string. *)
Fixpoint str_in (sig text : string) : bool :=
  String.prefix sig text ||
  match text with
  | EmptyString => false
  | String _ rest => str_in sig rest
  end.

(** [class PayloadRule] *)
Record PayloadRule := mkPayloadRule { signatures : list string }.

Definition PayloadRule_init (sigs : option (list string)) : PayloadRule :=
  {| signatures := match sigs with
                   | Some ((_ :: _) as l) => l
                   | _ => []
                   end |}.

Fixpoint any_signature (sigs : list string) (text : string) : bool :=
  match sigs with
  | [] => false
  | sig :: rest => if str_in sig text then true else any_signature rest text
  end.

Definition PayloadRule_check (self : PayloadRule) (cell : ATMCell) : bool :=
  any_signature (signatures self) (payload cell).

Definition PayloadRule_add_signature (self : PayloadRule) (signature : string) : PayloadRule :=
  {| signatures := signatures self ++ [signature] |}.

Definition PayloadRule_remove_signature (self : PayloadRule) (signature : string) : PayloadRule :=
  {| signatures := filter (λ s, s ≠ signature) (signatures self) |}.

(** [class ATMFilter]: the policers are one bucket per configured flow. *)
Record ATMFilter := mkFilter {
  header_rule : HeaderRule;
  payload_rule : PayloadRule;
  policers : gmap FlowKey TokenBucket
}.

Definition ATMFilter_init (hr : option HeaderRule) (pr : option PayloadRule)
    (policer_cfg : option (gmap FlowKey (Q * Q))) : ATMFilter :=
  {| header_rule := default (HeaderRule_init None) hr;
     payload_rule := default (PayloadRule_init None) pr;
     policers := (λ rb, TokenBucket_init rb.1 rb.2) <$> default ∅ policer_cfg |}.

Definition set_policers (self : ATMFilter) (p : gmap FlowKey TokenBucket) : ATMFilter :=
  {| header_rule := header_rule self; payload_rule := payload_rule self; policers := p |}.

(** The pair [(action, reason)] that [process] returns. *)
Definition Verdict : Type := (string * option string)%type.

(** [ATMFilter.process]: the verdict and the filter after the call. *)
Definition process (self : ATMFilter) (cell : ATMCell) (now : Q) : Verdict * ATMFilter :=
  if HeaderRule_check (header_rule self) cell
  then (("drop", Some "header"), self)
  else
    let key := header cell in
    let '(denied, self) :=
      match policers self !! key with
      | Some bucket =>
          let '(allowed, bucket) := allow bucket now in
          (negb allowed, set_policers self (<[key := bucket]> (policers self)))
      | None => (false, self)
      end in
    if denied
    then (("drop", Some "policer"), self)
    else if PayloadRule_check (payload_rule self) cell
         then (("drop", Some "payload"), self)
         else (("forward", None), self).

(** ** Effects: exceptions, the [random] module, the wall clock, the socket *)

(** What running a piece of the program gives: a value, the one exception
    the arithmetic can raise, or a loop cut off by the step budget. *)
Inductive outcome (A : Type) : Type :=
  | Ok (a : A)
  | ZeroDivisionError
  | OutOfFuel.
Arguments Ok {A} a.
Arguments ZeroDivisionError {A}.
Arguments OutOfFuel {A}.

#[global] Instance outcome_ret : MRet outcome := λ A a, Ok a.
#[global] Instance outcome_bind : MBind outcome := λ A B f c,
  match c with
  | Ok a => f a
  | ZeroDivisionError => ZeroDivisionError
  | OutOfFuel => OutOfFuel
  end.

(** Python's [a / b] on floats and on ints (true division). *)
Definition float_div (a b : Q) : outcome Q :=
  if Qeq_bool b 0 then ZeroDivisionError else Ok (a / b).

Definition int_div (a b : Z) : outcome Q :=
  if (b =? 0)%Z then ZeroDivisionError else Ok (inject_Z a / inject_Z b).

(** The interface of Python's [random] module that the generator uses; [G]
    is the state of the module's hidden generator. *)
Class PRNG (G : Type) := {
  rng_seed : Z → G;
  rng_choice : list Z → G → Z * G;
  rng_random : G → Q * G;
  rng_randint : Z → Z → G → Z * G
}.

(** [random.random()] returns a float in the half-open range [0.0, 1.0). *)
Definition random_in_unit_interval `{PRNG G} : Prop :=
  ∀ g : G, 0 <= (rng_random g).1 ∧ (rng_random g).1 < 1.

(** The counters of a run: [defaultdict(int)]. *)
Abbreviation Stats := (gmap string Z).

(** [stats.get(k, 0)] *)
Definition get (k : string) (stats : Stats) : Z := default 0%Z (stats !! k).

(** [stats[k] += 1] *)
Definition incr (k : string) (stats : Stats) : Stats := <[k := (get k stats + 1)%Z]> stats.

(** [stats[k]] as an expression: an absent key is inserted with 0. *)
Definition getitem (k : string) (stats : Stats) : Z * Stats :=
  (get k stats, <[k := get k stats]> stats).

(** The returned dictionary: its integer entries and its two float entries. *)
Record Final := mkFinal {
  counters : Stats;
  false_positive_rate : Q;
  false_negative_rate : Q
}.

Inductive Event : Type :=
  | sim_update (emit_stats : Stats)
  | sim_done (final : Final).

(** Everything outside the program that a run reads or writes. *)
Record World (G : Type) := mkWorld {
  rng : G;
  clock : nat → Q;
  ticks : nat;
  emitted : list Event
}.
Arguments mkWorld {G} _ _ _ _.
Arguments rng {G} _.
Arguments clock {G} _.
Arguments ticks {G} _.
Arguments emitted {G} _.

Section Simulation.
Context {G : Type} `{PRNG G}.

Definition set_rng (w : World G) (g : G) : World G :=
  mkWorld g (clock w) (ticks w) (emitted w).

(** [time.time()]: the next reading of the wall clock. *)
Definition time_time (w : World G) : Q * World G :=
  (clock w (ticks w), mkWorld (rng w) (clock w) (S (ticks w)) (emitted w)).

(** [socketio.emit(...)] *)
Definition socketio_emit (e : Event) (w : World G) : World G :=
  mkWorld (rng w) (clock w) (ticks w) (emitted w ++ [e]).

(** [ATMCell.__init__] stamps the cell with the wall clock. *)
Definition ATMCell_init (vpi vci : Z) (payload : string) (is_malicious : bool)
    (w : World G) : ATMCell * World G :=
  let '(ts, w) := time_time w in
  (mkCell vpi vci payload is_malicious ts, w).

(** ** atm_sim.py *)

(** A suspended [generate_traffic] generator: its local variables. *)
Record TrafficGen := mkGen {
  gen_t : Q;
  gen_dt : Q;
  gen_duration_sec : Q;
  gen_malicious_fraction : Q
}.

(** [generate_traffic], up to the loop: seeding and the two locals. *)
Definition generate_traffic (duration_sec total_rate malicious_fraction : Q)
    (seed : option Z) (w : World G) : outcome (TrafficGen * World G) :=
  let w := match seed with
           | Some s => set_rng w (rng_seed s)
           | None => w
           end in
  dt ← float_div 1 total_rate;
  Ok (mkGen 0 dt duration_sec malicious_fraction, w).

(** One turn of the generator's loop: [None] when the loop ends, else the
    yielded pair and the generator advanced by [t += dt]. *)
Definition gen_next (gen : TrafficGen) (w : World G)
    : option ((Q * ATMCell) * TrafficGen * World G) :=
  let t := gen_t gen in
  if Qltb t (gen_duration_sec gen) then
    let '(vpi, g) := rng_choice [0; 1; 2]%Z (rng w) in
    let '(vci, g) := rng_choice [10; 20; 30; 40]%Z g in
    let '(x, g) := rng_random g in
    let is_mal := Qltb x (gen_malicious_fraction gen) in
    let '(payload, g) :=
      if is_mal
      then let '(n, g) := rng_randint 0 999 g in ("BADSIG_" +:+ pretty n, g)
      else ("NORMALDATA", g) in
    let '(cell, w) := ATMCell_init vpi vci payload is_mal (set_rng w g) in
    Some ((t, cell),
          mkGen (t + gen_dt gen) (gen_dt gen) (gen_duration_sec gen) (gen_malicious_fraction gen),
          w)
  else None.

(** The f-string [f'dropped_{reason}']. *)
Definition dropped_key (reason : option string) : string :=
  "dropped_" +:+ default "None" reason.

(** The body of the loop over the cells, the same text in [run_simulation]
    and in [run_simulation_emit]: count the cell, filter it, count the
    verdict. *)
Definition count_cell (atm_filter : ATMFilter) (stats : Stats) (cell : ATMCell) (now : Q)
    : ATMFilter * Stats :=
  let stats := incr "total" stats in
  let stats := if is_malicious cell then incr "mal_total" stats
               else incr "legit_total" stats in
  let '((action, reason), atm_filter) := process atm_filter cell now in
  let stats :=
    if String.eqb action "drop" then
      let stats := incr "dropped" stats in
      let stats := incr (dropped_key reason) stats in
      if is_malicious cell then incr "mal_dropped" stats
      else incr "legit_dropped" stats
    else
      let stats := incr "forwarded" stats in
      if is_malicious cell then incr "mal_forwarded" stats
      else incr "legit_forwarded" stats in
  (atm_filter, stats).

(** The [for] loop of [run_simulation] over the generator. *)
Fixpoint sim_loop (fuel : nat) (now_base : Q) (gen : TrafficGen) (w : World G)
    (atm_filter : ATMFilter) (stats : Stats) : outcome (ATMFilter * Stats * World G) :=
  match gen_next gen w with
  | None => Ok (atm_filter, stats, w)
  | Some ((t_offset, cell), gen, w) =>
      match fuel with
      | O => OutOfFuel
      | S fuel =>
          let now := now_base + t_offset in
          let '(atm_filter, stats) := count_cell atm_filter stats cell now in
          sim_loop fuel now_base gen w atm_filter stats
      end
  end.

(** Truth value of [stats.get(k)]: false when absent or 0. *)
Definition truthy (k : string) (stats : Stats) : bool :=
  match stats !! k with
  | Some n => negb (n =? 0)%Z
  | None => false
  end.

(** The two derived metrics at the end of [run_simulation]. *)
Definition derive_metrics (stats : Stats) : outcome Final :=
  '(fpr, stats) ←
     (if truthy "legit_total" stats then
        let '(a, stats) := getitem "legit_dropped" stats in
        let '(b, stats) := getitem "legit_total" stats in
        q ← int_div a b; Ok (q, stats)
      else Ok (0, stats));
  '(fnr, stats) ←
     (if truthy "mal_total" stats then
        let '(a, stats) := getitem "mal_forwarded" stats in
        let '(b, stats) := getitem "mal_total" stats in
        q ← int_div a b; Ok (q, stats)
      else Ok (0, stats));
  Ok (mkFinal stats fpr fnr).

(** [run_simulation] *)
Definition run_simulation (fuel : nat) (w : World G) (duration rate mal_frac : Q)
    (header_deny : option (list FlowKey)) (signatures : option (list string))
    (policer_cfg : option (gmap FlowKey (Q * Q))) (seed : option Z)
    : outcome (Final * World G) :=
  let header := HeaderRule_init header_deny in
  let payload := PayloadRule_init signatures in
  let atm_filter := ATMFilter_init (Some header) (Some payload) policer_cfg in
  let stats : Stats := ∅ in
  let '(now_base, w) := time_time w in
  '(gen, w) ← generate_traffic duration rate mal_frac seed w;
  '(_, stats, w) ← sim_loop fuel now_base gen w atm_filter stats;
  final ← derive_metrics stats;
  Ok (final, w).

(** ** app.py *)

(** [traffic_generator] is [generate_traffic] line for line; the model uses
    [generate_traffic] and [gen_next] for both. *)

(** The twelve-entry dictionary built for a periodic [sim_update]. *)
Definition emit_stats_of (stats : Stats) : Stats :=
  list_to_map
    ((λ k, (k, get k stats)) <$>
       ["total"; "forwarded"; "dropped";
        "dropped_header"; "dropped_policer"; "dropped_payload";
        "mal_total"; "mal_forwarded"; "mal_dropped";
        "legit_total"; "legit_forwarded"; "legit_dropped"]).

(** The [for] loop of [run_simulation_emit]. *)
Fixpoint emit_loop (fuel : nat) (now_base update_interval : Q) (gen : TrafficGen)
    (w : World G) (atm_filter : ATMFilter) (stats : Stats)
    (last_emit_time : Q) (batch_count : Z)
    : outcome (ATMFilter * Stats * World G) :=
  match gen_next gen w with
  | None => Ok (atm_filter, stats, w)
  | Some ((t_offset, cell), gen, w) =>
      match fuel with
      | O => OutOfFuel
      | S fuel =>
          let now := now_base + t_offset in
          let '(atm_filter, stats) := count_cell atm_filter stats cell now in
          let '(t1, w) := time_time w in
          if Qleb update_interval (t1 - last_emit_time) then
            let w := socketio_emit (sim_update (emit_stats_of stats)) w in
            let '(t2, w) := time_time w in
            emit_loop fuel now_base update_interval gen w atm_filter stats t2 (batch_count + 1)%Z
          else
            emit_loop fuel now_base update_interval gen w atm_filter stats
              last_emit_time batch_count
      end
  end.

(** [final.get(k, d)] on the plain dictionary [final = dict(stats)]. *)
Definition get_default (k : string) (d : Z) (final : Stats) : Z := default d (final !! k).

(** The final emit of [run_simulation_emit]. *)
Definition final_emit (stats : Stats) : outcome Final :=
  let final := stats in
  fpr ← (if truthy "legit_total" final
         then int_div (get_default "legit_dropped" 0 final) (get_default "legit_total" 1 final)
         else Ok 0);
  fnr ← (if truthy "mal_total" final
         then int_div (get_default "mal_forwarded" 0 final) (get_default "mal_total" 1 final)
         else Ok 0);
  Ok (mkFinal final fpr fnr).

(** [run_simulation_emit]: what it sends is in the [emitted] log of the
    world it returns. *)
Definition run_simulation_emit (fuel : nat) (w : World G) (duration rate mal_frac : Q)
    (header_deny : option (list FlowKey)) (sigs : option (list string))
    (policer_cfg : option (gmap FlowKey (Q * Q))) (update_interval : Q) (seed : option Z)
    : outcome (World G) :=
  let atm_filter :=
    ATMFilter_init (Some (HeaderRule_init header_deny)) (Some (PayloadRule_init sigs))
      policer_cfg in
  let stats : Stats := ∅ in
  let '(now_base, w) := time_time w in
  let last_emit_time := now_base in
  let batch_count := 0%Z in
  '(gen, w) ← generate_traffic duration rate mal_frac seed w;
  '(_, stats, w) ← emit_loop fuel now_base update_interval gen w atm_filter stats
                     last_emit_time batch_count;
  final ← final_emit stats;
  Ok (socketio_emit (sim_done final) w).

End Simulation.

(** ** app.py: starting a simulation

    [handle_start_sim] runs once per [start_sim] request, possibly in
    several threads at once.  The model is an interleaving of the
    invocations at the grain of the handler's statements; [sim_lock] is
    Python's [threading.Lock]: acquiring it waits until it is free. *)

(** Where one invocation of [handle_start_sim] stands. *)
Inductive Pc : Type :=
  | AtAcquire      (* before [with sim_lock:] *)
  | AtCheck        (* at [if sim_thread and sim_thread.is_alive():] *)
  | AtEmitError    (* at [emit('sim_error', ...)] and the [return] *)
  | AtCreate       (* at [sim_thread = threading.Thread(...)] *)
  | AtStart        (* at [sim_thread.start()] *)
  | AtEmitStarted  (* at [emit('sim_started', ...)] *)
  | AtRelease      (* leaving the [with] block *)
  | Returned.

(** A [threading.Thread] running [run_simulation_emit]. *)
Inductive ThreadState : Type := Created | Running | Finished.

#[global] Instance ThreadState_eq_dec : EqDecision ThreadState.
Proof. solve_decision. Defined.

(** The module's globals, the threads it made, the invocations in flight
    and the events sent back to the clients. *)
Record Server := mkServer {
  sim_thread : option nat;
  sim_lock : option nat;
  threads : gmap nat ThreadState;
  handlers : gmap nat Pc;
  sent : list (nat * string)
}.

Definition server_init : Server := mkServer None None ∅ ∅ [].

Definition set_pc (h : nat) (pc : Pc) (s : Server) : Server :=
  mkServer (sim_thread s) (sim_lock s) (threads s) (<[h := pc]> (handlers s)) (sent s).

(** [sim_thread and sim_thread.is_alive()] *)
Definition sim_thread_alive (s : Server) : bool :=
  match sim_thread s with
  | Some t => bool_decide (threads s !! t = Some Running)
  | None => false
  end.

(** Inside the [with sim_lock:] block. *)
Definition in_critical_section (pc : Pc) : bool :=
  match pc with
  | AtAcquire | Returned => false
  | _ => true
  end.

(** One statement of invocation [h] of [handle_start_sim]; [None] when the
    invocation cannot move (it waits for the lock, or it has returned). *)
Definition handle_start_sim (h : nat) (s : Server) : option Server :=
  match handlers s !! h with
  | Some AtAcquire =>
      match sim_lock s with
      | None => Some (set_pc h AtCheck
                        (mkServer (sim_thread s) (Some h) (threads s) (handlers s) (sent s)))
      | Some _ => None
      end
  | Some AtCheck =>
      if sim_thread_alive s then Some (set_pc h AtEmitError s)
      else Some (set_pc h AtCreate s)
  | Some AtEmitError =>
      Some (set_pc h AtRelease
              (mkServer (sim_thread s) (sim_lock s) (threads s) (handlers s)
                 (sent s ++ [(h, "sim_error")])))
  | Some AtCreate =>
      let t := fresh (dom (threads s)) in
      Some (set_pc h AtStart
              (mkServer (Some t) (sim_lock s) (<[t := Created]> (threads s)) (handlers s)
                 (sent s)))
  | Some AtStart =>
      match sim_thread s with
      | Some t =>
          Some (set_pc h AtEmitStarted
                  (mkServer (sim_thread s) (sim_lock s) (<[t := Running]> (threads s))
                     (handlers s) (sent s)))
      | None => None
      end
  | Some AtEmitStarted =>
      Some (set_pc h AtRelease
              (mkServer (sim_thread s) (sim_lock s) (threads s) (handlers s)
                 (sent s ++ [(h, "sim_started")])))
  | Some AtRelease =>
      Some (set_pc h Returned
              (mkServer (sim_thread s) None (threads s) (handlers s) (sent s)))
  | Some Returned | None => None
  end.

(** What can happen next: a new request arrives, an invocation executes its
    next statement, or a running simulation comes to its end. *)
Inductive Action : Type :=
  | Arrive (h : nat)
  | Step (h : nat)
  | Finish (t : nat).

Definition server_step (a : Action) (s : Server) : option Server :=
  match a with
  | Arrive h =>
      match handlers s !! h with
      | None => Some (set_pc h AtAcquire s)
      | Some _ => None
      end
  | Step h => handle_start_sim h s
  | Finish t =>
      match threads s !! t with
      | Some Running =>
          Some (mkServer (sim_thread s) (sim_lock s) (<[t := Finished]> (threads s))
                  (handlers s) (sent s))
      | _ => None
      end
  end.

Fixpoint server_run (acts : list Action) (s : Server) : option Server :=
  match acts with
  | [] => Some s
  | a :: acts => s ← server_step a s; server_run acts s
  end.

(** ** The same code on binary64 floats

    [TokenBucket.allow], [ATMFilter.process], [generate_traffic] and
    [run_simulation] once more, line for line, with every [float] a
    binary64 value and every operation IEEE 754, rounded to nearest even.
    The draw of [random.random()] and the malicious fraction stay exact
    rationals: the code only compares them. *)

Record TokenBucket64 := mkBucket64 {
  rate64 : float;
  capacity64 : float;
  tokens64 : float;
  last_time64 : option float
}.

Definition TokenBucket64_init (rate_tokens_per_sec burst_capacity : float) : TokenBucket64 :=
  {| rate64 := rate_tokens_per_sec;
     capacity64 := burst_capacity;
     tokens64 := burst_capacity;
     last_time64 := None |}.

Definition set_last_time64 (b : TokenBucket64) (t : float) : TokenBucket64 :=
  {| rate64 := rate64 b; capacity64 := capacity64 b; tokens64 := tokens64 b;
     last_time64 := Some t |}.

Definition set_tokens64 (b : TokenBucket64) (x : float) : TokenBucket64 :=
  {| rate64 := rate64 b; capacity64 := capacity64 b; tokens64 := x;
     last_time64 := last_time64 b |}.

(** Python's [min(a, b)] on floats: [b] when [b < a], else [a]. *)
Definition py_min64 (a b : float) : float := if (b <? a)%float then b else a.

(** [TokenBucket.allow] *)
Definition allow64 (self : TokenBucket64) (now : float) : bool * TokenBucket64 :=
  let '(self, last) := match last_time64 self with
                       | None => (set_last_time64 self now, now)
                       | Some l => (self, l)
                       end in
  let elapsed := (now - last)%float in
  let self := if (0 <? elapsed)%float
              then set_last_time64
                     (set_tokens64 self
                        (py_min64 (capacity64 self)
                           (tokens64 self + elapsed * rate64 self)%float))
                     now
              else self in
  if (1 <=? tokens64 self)%float
  then (true, set_tokens64 self (tokens64 self - 1)%float)
  else (false, self).

Fixpoint allow64_calls (b : TokenBucket64) (ts : list float) : list (bool * TokenBucket64) :=
  match ts with
  | [] => []
  | now :: ts => let r := allow64 b now in r :: allow64_calls r.2 ts
  end.

(** The timestamps [t0 + k * delta] for [k = 0 .. n-1], as floats. *)
Definition spaced64 (t0 delta : float) (n : nat) : list float :=
  (λ k, (t0 + PrimFloat.of_uint63 (Uint63.of_Z (Z.of_nat k)) * delta)%float) <$> seq 0 n.

(** The differences [now - last] of consecutive timestamps, as the code
    computes them, starting from the timestamp [last]. *)
Fixpoint gaps64_from (last : float) (ts : list float) : list float :=
  match ts with
  | [] => []
  | now :: ts => (now - last)%float :: gaps64_from now ts
  end.

Definition gaps64 (ts : list float) : list float :=
  match ts with
  | [] => []
  | t0 :: ts => gaps64_from t0 ts
  end.

(** Every computed difference is positive and refills, as the code computes
    the product with the rate, at least one token. *)
Definition refills_whole_token (r : float) (ts : list float) : bool :=
  forallb (λ elapsed, (0 <? elapsed)%float && (1 <=? elapsed * r)%float) (gaps64 ts).

(** A binary64 value, decoded, that is at least 1: plus infinity, or a
    positive 53-digit mantissa with an exponent of at least -52. *)
Definition ge1 (s : spec_float) : Prop :=
  s = S754_infinity false ∨
  ∃ m e, s = S754_finite false m e ∧ (-52 ≤ e)%Z ∧ Zpos (digits2_pos m) = 53%Z.

(** A decoded binary64 value that is at least 0. *)
Definition nonneg_sf (s : spec_float) : Prop :=
  match s with
  | S754_zero _ | S754_infinity false | S754_finite false _ _ => True
  | _ => False
  end.

Record ATMCell64 := mkCell64 {
  vpi64 : Z;
  vci64 : Z;
  payload64 : string;
  is_malicious64 : bool;
  timestamp64 : float
}.

Record ATMFilter64 := mkFilter64 {
  header_rule64 : HeaderRule;
  payload_rule64 : PayloadRule;
  policers64 : gmap FlowKey TokenBucket64
}.

Definition ATMFilter64_init (hr : option HeaderRule) (pr : option PayloadRule)
    (policer_cfg : option (gmap FlowKey (float * float))) : ATMFilter64 :=
  {| header_rule64 := default (HeaderRule_init None) hr;
     payload_rule64 := default (PayloadRule_init None) pr;
     policers64 := (λ rb, TokenBucket64_init rb.1 rb.2) <$> default ∅ policer_cfg |}.

(** [ATMFilter.process] *)
Definition process64 (self : ATMFilter64) (cell : ATMCell64) (now : float)
    : Verdict * ATMFilter64 :=
  let key : FlowKey := (vpi64 cell, vci64 cell) in
  if bool_decide (key ∈ deny_list (header_rule64 self))
  then (("drop", Some "header"), self)
  else
    let '(denied, self) :=
      match policers64 self !! key with
      | Some bucket =>
          let '(allowed, bucket) := allow64 bucket now in
          (negb allowed,
           mkFilter64 (header_rule64 self) (payload_rule64 self)
             (<[key := bucket]> (policers64 self)))
      | None => (false, self)
      end in
    if denied
    then (("drop", Some "policer"), self)
    else if any_signature (signatures (payload_rule64 self)) (payload64 cell)
         then (("drop", Some "payload"), self)
         else (("forward", None), self).

Record World64 (G : Type) := mkWorld64 {
  rng64 : G;
  clock64 : nat → float;
  ticks64 : nat
}.
Arguments mkWorld64 {G} _ _ _.
Arguments rng64 {G} _.
Arguments clock64 {G} _.
Arguments ticks64 {G} _.

Record TrafficGen64 := mkGen64 {
  gen64_t : float;
  gen64_dt : float;
  gen64_duration_sec : float;
  gen64_malicious_fraction : Q
}.

Section Simulation64.
Context {G : Type} `{PRNG G}.

(** [generate_traffic], up to the loop. *)
Definition generate_traffic64 (duration_sec total_rate : float) (malicious_fraction : Q)
    (seed : option Z) (w : World64 G) : outcome (TrafficGen64 * World64 G) :=
  let w := match seed with
           | Some s => mkWorld64 (rng_seed s) (clock64 w) (ticks64 w)
           | None => w
           end in
  if (total_rate =? 0)%float then ZeroDivisionError
  else Ok (mkGen64 0%float (1 / total_rate)%float duration_sec malicious_fraction, w).

(** One turn of the generator's loop. *)
Definition gen_next64 (gen : TrafficGen64) (w : World64 G)
    : option ((float * ATMCell64) * TrafficGen64 * World64 G) :=
  let t := gen64_t gen in
  if (t <? gen64_duration_sec gen)%float then
    let '(vpi, g) := rng_choice [0; 1; 2]%Z (rng64 w) in
    let '(vci, g) := rng_choice [10; 20; 30; 40]%Z g in
    let '(x, g) := rng_random g in
    let is_mal := Qltb x (gen64_malicious_fraction gen) in
    let '(payload, g) :=
      if is_mal
      then let '(n, g) := rng_randint 0 999 g in ("BADSIG_" +:+ pretty n, g)
      else ("NORMALDATA", g) in
    let cell := mkCell64 vpi vci payload is_mal (clock64 w (ticks64 w)) in
    Some ((t, cell),
          mkGen64 (t + gen64_dt gen)%float (gen64_dt gen) (gen64_duration_sec gen)
            (gen64_malicious_fraction gen),
          mkWorld64 g (clock64 w) (S (ticks64 w)))
  else None.

(** The body of the loop over the cells. *)
Definition count_cell64 (atm_filter : ATMFilter64) (stats : Stats) (cell : ATMCell64)
    (now : float) : ATMFilter64 * Stats :=
  let stats := incr "total" stats in
  let stats := if is_malicious64 cell then incr "mal_total" stats
               else incr "legit_total" stats in
  let '((action, reason), atm_filter) := process64 atm_filter cell now in
  let stats :=
    if String.eqb action "drop" then
      let stats := incr "dropped" stats in
      let stats := incr (dropped_key reason) stats in
      if is_malicious64 cell then incr "mal_dropped" stats
      else incr "legit_dropped" stats
    else
      let stats := incr "forwarded" stats in
      if is_malicious64 cell then incr "mal_forwarded" stats
      else incr "legit_forwarded" stats in
  (atm_filter, stats).

Fixpoint sim_loop64 (fuel : nat) (now_base : float) (gen : TrafficGen64) (w : World64 G)
    (atm_filter : ATMFilter64) (stats : Stats) : outcome (ATMFilter64 * Stats * World64 G) :=
  match gen_next64 gen w with
  | None => Ok (atm_filter, stats, w)
  | Some ((t_offset, cell), gen, w) =>
      match fuel with
      | O => OutOfFuel
      | S fuel =>
          let now := (now_base + t_offset)%float in
          let '(atm_filter, stats) := count_cell64 atm_filter stats cell now in
          sim_loop64 fuel now_base gen w atm_filter stats
      end
  end.

(** [run_simulation] *)
Definition run_simulation64 (fuel : nat) (w : World64 G) (duration rate : float) (mal_frac : Q)
    (header_deny : option (list FlowKey)) (signatures : option (list string))
    (policer_cfg : option (gmap FlowKey (float * float))) (seed : option Z)
    : outcome (Final * World64 G) :=
  let header := HeaderRule_init header_deny in
  let payload := PayloadRule_init signatures in
  let atm_filter := ATMFilter64_init (Some header) (Some payload) policer_cfg in
  let stats : Stats := ∅ in
  let now_base := clock64 w (ticks64 w) in
  let w := mkWorld64 (rng64 w) (clock64 w) (S (ticks64 w)) in
  '(gen, w) ← generate_traffic64 duration rate mal_frac seed w;
  '(_, stats, w) ← sim_loop64 fuel now_base gen w atm_filter stats;
  final ← derive_metrics stats;
  Ok (final, w).

End Simulation64.

(** ** The draws of CPython's [random] after [random.seed(10)]

    The first two cells of a run seeded with 10 (CPython 3.11): both on flow
    (2, 10), with [random.random()] returning 3863089173636261 / 2^53 and
    1856367842930356 / 2^53.  The generator below hands out these draws in
    order: an index for [random.choice], a numerator for
    [random.random()]. *)
Module Recorded.

Definition seed_10 : list Z :=
  [2; 0; 3863089173636261; 2; 0; 1856367842930356]%Z.

Definition pop (g : list Z) : Z * list Z :=
  match g with
  | d :: g => (d, g)
  | [] => (0%Z, [])
  end.

#[global] Instance prng : PRNG (list Z) :=
  {| rng_seed := λ s, if (s =? 10)%Z then seed_10 else [];
     rng_choice := λ l g, let '(i, g) := pop g in (nth (Z.to_nat i) l 0%Z, g);
     rng_random := λ g, let '(n, g) := pop g in (n # 9007199254740992, g);
     rng_randint := λ _ _ g, pop g |}.

(** A wall clock that reads [t0] first and a millisecond more each time. *)
Definition clock_from (t0 : float) (n : nat) : float :=
  (t0 + PrimFloat.of_uint63 (Uint63.of_Z (Z.of_nat n)) / 1000)%float.

Definition world (t0 : float) : World64 (list Z) := mkWorld64 [] (clock_from t0) 0.

End Recorded.

(** One policed flow: 10 cells per second, a burst of one. *)
Definition one_policer_cfg : option (gmap FlowKey (float * float)) :=
  Some (<[(2, 10)%Z := (10%float, 1%float)]> ∅).

(** The counters of a finished run, read with default 0. *)
Definition counters_of {W : Type} (o : outcome (Final * W)) (keys : list string)
    : option (list Z) :=
  match o with
  | Ok (final, _) => Some ((λ k, get k (counters final)) <$> keys)
  | _ => None
  end.

(** ** A small generator for running the model

    A linear congruential generator on [Z]; it stands in for Python's
    Mersenne Twister wherever a statement is evaluated on a concrete run. *)
Module Lcg.

Definition next (g : Z) : Z := ((g * 1103515245 + 12345) mod 2147483648)%Z.

Definition choice (l : list Z) (g : Z) : Z * Z :=
  (nth (Z.to_nat ((g / 65536) mod Z.of_nat (length l))) l 0%Z, next g).

Definition random (g : Z) : Q * Z := (((g / 65536) mod 1000)%Z # 1000, next g).

Definition randint (a b : Z) (g : Z) : Z * Z :=
  ((a + (g / 65536) mod (b - a + 1))%Z, next g).

#[global] Instance prng : PRNG Z :=
  {| rng_seed := λ s, next (Z.abs s);
     rng_choice := choice;
     rng_random := random;
     rng_randint := randint |}.

(** The wall clock of a run that starts at [t0] and whose [n]-th reading is
    [n] milliseconds later. *)
Definition clock_from (t0 : Q) (n : nat) : Q := t0 + inject_Z (Z.of_nat n) / 1000.

Definition world (t0 : Q) : World Z := mkWorld 0%Z (clock_from t0) 0 [].

End Lcg.

Definition demo_deny : option (list FlowKey) := Some [(1, 30)%Z].
Definition demo_sigs : option (list string) := Some ["BADSIG_"].
Definition demo_policer_cfg : option (gmap FlowKey (Q * Q)) :=
  Some (<[(0, 10)%Z := (50, 20)]> (<[(2, 40)%Z := (30, 10)]> ∅)).

(** ** Definitions used by the statements *)

(** A run of calls [allow(t1)], [allow(t2)], ... on one bucket: the result
    of every call with the bucket after it. *)
Fixpoint allow_calls (b : TokenBucket) (ts : list Q) : list (bool * TokenBucket) :=
  match ts with
  | [] => []
  | now :: ts => let r := allow b now in r :: allow_calls r.2 ts
  end.

(** The token count is between 0 and [c]. *)
Definition tokens_in_range (c : Q) (b : TokenBucket) : Prop :=
  0 <= tokens b ∧ tokens b <= c.

(** The timestamps [t0], [t0 + delta], ..., [t0 + (n-1) * delta]. *)
Definition spaced (t0 delta : Q) (n : nat) : list Q :=
  (λ k, t0 + inject_Z (Z.of_nat k) * delta) <$> seq 0 n.

(** Section 4.3 of the specification, steps 2 and 3, for a bucket whose last
    refill was at [last_refill]: refill when time has passed, then take a
    token when there is one. *)
Definition allow_spec (b : TokenBucket) (last_refill now : Q) : bool * TokenBucket :=
  let elapsed := now - last_refill in
  let refilled :=
    match Qlt_le_dec 0 elapsed with
    | left _ => mkBucket (rate b) (capacity b)
                  (Qmin (capacity b) (tokens b + elapsed * rate b)) (Some now)
    | right _ => b
    end in
  match Qlt_le_dec (tokens refilled) 1 with
  | right _ => (true, mkBucket (rate refilled) (capacity refilled)
                        (tokens refilled - 1) (last_time refilled))
  | left _ => (false, refilled)
  end.

(** The counters add up: every cell is forwarded or dropped, within each
    label too, and every drop has one of the three reasons. *)
Definition counters_consistent (s : Stats) : Prop :=
  (get "total" s = get "forwarded" s + get "dropped" s)%Z ∧
  (get "legit_total" s = get "legit_forwarded" s + get "legit_dropped" s)%Z ∧
  (get "mal_total" s = get "mal_forwarded" s + get "mal_dropped" s)%Z ∧
  (get "dropped" s = get "dropped_header" s + get "dropped_policer" s
                     + get "dropped_payload" s)%Z.

Definition event_stats (e : Event) : Stats :=
  match e with
  | sim_update emit_stats => emit_stats
  | sim_done final => counters final
  end.

(** No counter is negative. *)
Definition counters_nonneg (s : Stats) : Prop := ∀ k, (0 <= get k s)%Z.

(** Section 4.6 of the specification: a derived rate is the quotient when
    the denominator is positive and 0.0 otherwise. *)
Definition rate_spec (num den : Z) : Q :=
  if (0 <? den)%Z then inject_Z num / inject_Z den else 0.

Definition rates_as_specified (final : Final) : Prop :=
  false_positive_rate final
  = rate_spec (get "legit_dropped" (counters final)) (get "legit_total" (counters final)) ∧
  false_negative_rate final
  = rate_spec (get "mal_forwarded" (counters final)) (get "mal_total" (counters final)).

(** Whether a run returned a value. *)
Definition is_Ok {A : Type} (o : outcome A) : bool :=
  match o with
  | Ok _ => true
  | _ => false
  end.

(** Two buckets in the same state, seen on clocks that differ by [d]. *)
Definition bucket_shift (d : Q) (b1 b2 : TokenBucket) : Prop :=
  rate b1 = rate b2 ∧ capacity b1 = capacity b2 ∧ tokens b1 == tokens b2 ∧
  match last_time b1, last_time b2 with
  | None, None => True
  | Some l1, Some l2 => l2 == l1 + d
  | _, _ => False
  end.

Definition filter_shift (d : Q) (f1 f2 : ATMFilter) : Prop :=
  header_rule f1 = header_rule f2 ∧ payload_rule f1 = payload_rule f2 ∧
  ∀ k, option_Forall2 (bucket_shift d) (policers f1 !! k) (policers f2 !! k).

(** Two cells that differ at most in their creation timestamp. *)
Definition same_cell (c1 c2 : ATMCell) : Prop :=
  vpi c1 = vpi c2 ∧ vci c1 = vci c2 ∧ payload c1 = payload c2 ∧
  is_malicious c1 = is_malicious c2.

(** What every reachable state of the server satisfies: a running thread
    is the one [sim_thread] names; an invocation inside the [with] block
    holds the lock; between a failed aliveness check and [start()] no
    thread runs, and at [start()] the thread just created is [sim_thread]. *)
Definition server_inv (s : Server) : Prop :=
  (∀ t, threads s !! t = Some Running → sim_thread s = Some t) ∧
  (∀ h pc, handlers s !! h = Some pc → in_critical_section pc = true →
           sim_lock s = Some h) ∧
  (∀ h, handlers s !! h = Some AtCreate → ∀ t, threads s !! t ≠ Some Running) ∧
  (∀ h, handlers s !! h = Some AtStart →
        (∃ t, sim_thread s = Some t ∧ threads s !! t = Some Created) ∧
        ∀ t, threads s !! t ≠ Some Running).

(** [random.choice] returns an element of the non-empty list it is given. *)
Definition choice_in_list `{PRNG G} : Prop :=
  ∀ (l : list Z) (g : G), l ≠ [] → (rng_choice l g).1 ∈ l.

(** The counters split by label. *)
Definition counters_by_label (s : Stats) : Prop :=
  (get "total" s = get "legit_total" s + get "mal_total" s)%Z ∧
  (get "forwarded" s = get "legit_forwarded" s + get "mal_forwarded" s)%Z ∧
  (get "dropped" s = get "legit_dropped" s + get "mal_dropped" s)%Z.

Definition is_sim_update (e : Event) : Prop :=
  match e with
  | sim_update _ => True
  | sim_done _ => False
  end.

(** The lock is held only by an invocation that is inside the block. *)
Definition lock_owned (s : Server) : Prop :=
  ∀ h, sim_lock s = Some h →
       ∃ pc, handlers s !! h = Some pc ∧ in_critical_section pc = true.

(** * Properties *)

(** ** Float comparisons *)

Lemma Qleb_spec (x y : Q) : reflect (x <= y) (Qleb x y).
Proof.
  unfold Qleb. destruct (Qle_bool x y) eqn:E; constructor.
  - by apply Qle_bool_iff.
  - intros H. apply Qle_bool_iff in H. congruence.
Qed.

Lemma Qltb_spec (x y : Q) : reflect (x < y) (Qltb x y).
Proof.
  unfold Qltb. destruct (Qle_bool y x) eqn:E; constructor; simpl.
  - apply Qle_bool_iff in E. by apply Qle_not_lt.
  - apply Qnot_le_lt. intros H. apply Qle_bool_iff in H. congruence.
Qed.

Lemma py_min_Qmin (a b : Q) : py_min a b = Qmin a b.
Proof.
  unfold py_min, Qmin, GenericMinMax.gmin.
  destruct (Qltb_spec b a) as [Hlt | Hge].
  - apply Qgt_alt in Hlt. by rewrite Hlt.
  - destruct (a ?= b) eqn:E; try done.
    apply Qgt_alt in E. contradiction.
Qed.

Lemma py_min_le_l (a b : Q) : py_min a b <= a.
Proof. unfold py_min. destruct (Qltb_spec b a); lra. Qed.

Lemma py_min_glb (a b x : Q) : x <= a → x <= b → x <= py_min a b.
Proof. unfold py_min. destruct (Qltb_spec b a); lra. Qed.

(** ** The token bucket *)

Lemma allow_rate (b : TokenBucket) (now : Q) : rate (allow b now).2 = rate b.
Proof.
  unfold allow. destruct (last_time b); simpl;
    repeat (match goal with |- context [if ?c then _ else _] => destruct c end; simpl); done.
Qed.

Lemma allow_capacity (b : TokenBucket) (now : Q) : capacity (allow b now).2 = capacity b.
Proof.
  unfold allow. destruct (last_time b); simpl;
    repeat (match goal with |- context [if ?c then _ else _] => destruct c end; simpl); done.
Qed.

(** A fresh bucket of capacity 2 and rate 1: two calls pass at once, the
    third is refused, and a call one second later passes again. *)
Example allow_calls_burst :
  (λ res, res.1) <$> allow_calls (TokenBucket_init 1 2) [10; 10; 10; 11]
  = [true; true; false; true].
Proof. reflexivity. Qed.

(** A clock that steps back does not refill the bucket and raises nothing. *)
Example allow_clock_steps_back :
  allow (mkBucket 1 2 (1 # 2) (Some 10)) 9 = (false, mkBucket 1 2 (1 # 2) (Some 10)).
Proof. reflexivity. Qed.

(** C3.  On a bucket that has been used before ([last_time] is set),
    [allow(now)] is the specified refill-then-take step: with
    [elapsed = now - last_time], a positive [elapsed] sets [tokens] to
    [min(capacity, tokens + elapsed * rate)] and [last_time] to [now], a
    non-positive one skips the refill; then a token count of at least 1 is
    decremented and the call returns true, otherwise it returns false and
    nothing else changes. *)
Theorem allow_refines_spec (b : TokenBucket) (l now : Q) :
  last_time b = Some l → allow b now = allow_spec b l now.
Proof.
  intros Hl. unfold allow, allow_spec. rewrite Hl.
  destruct (Qltb_spec 0 (now - l)) as [Hpos | Hnp];
    destruct (Qlt_le_dec 0 (now - l)) as [Hpos' | Hnp']; try lra.
  - cbn [set_last_time set_tokens tokens rate capacity last_time].
    rewrite py_min_Qmin.
    destruct (Qleb_spec 1 (Qmin (capacity b) (tokens b + (now - l) * rate b)));
      destruct (Qlt_le_dec (Qmin (capacity b) (tokens b + (now - l) * rate b)) 1);
      try lra; reflexivity.
  - destruct (Qleb_spec 1 (tokens b)); destruct (Qlt_le_dec (tokens b) 1);
      try lra; reflexivity.
Qed.

Lemma allow_refines_spec_witness :
  allow (mkBucket 50 20 (1 # 2) (Some 10)) (1001 # 100)
  = allow_spec (mkBucket 50 20 (1 # 2) (Some 10)) 10 (1001 # 100).
Proof. apply allow_refines_spec. reflexivity. Defined.

Lemma allow_tokens_in_range (b : TokenBucket) (now : Q) :
  0 <= rate b → tokens_in_range (capacity b) b →
  tokens_in_range (capacity b) (allow b now).2.
Proof.
  intros Hr [H0 Hc]. unfold tokens_in_range, allow.
  destruct (last_time b) as [l|].
  - destruct (Qltb_spec 0 (now - l)) as [Hpos | Hnp];
      cbn [set_last_time set_tokens tokens rate capacity last_time].
    + pose proof (py_min_le_l (capacity b) (tokens b + (now - l) * rate b)) as Hle.
      assert (0 <= py_min (capacity b) (tokens b + (now - l) * rate b)) as Hge.
      { apply py_min_glb; [lra|].
        assert (0 <= (now - l) * rate b) as Hprod by (apply Qmult_le_0_compat; lra).
        revert Hprod. generalize ((now - l) * rate b). intros x Hx. lra. }
      destruct (Qleb_spec 1 (py_min (capacity b) (tokens b + (now - l) * rate b)));
        cbn [snd set_tokens set_last_time tokens]; lra.
    + destruct (Qleb_spec 1 (tokens b)); cbn [snd set_tokens set_last_time tokens]; lra.
  - cbn [set_last_time set_tokens tokens rate capacity last_time].
    destruct (Qltb_spec 0 (now - now)) as [Hpos | Hnp]; [lra|].
    cbn [tokens set_last_time].
    destruct (Qleb_spec 1 (tokens b)); cbn [snd set_tokens set_last_time tokens]; lra.
Qed.

Lemma allow_calls_in_range (b : TokenBucket) (ts : list Q) :
  0 <= rate b → tokens_in_range (capacity b) b →
  Forall (λ res, tokens_in_range (capacity b) res.2) (allow_calls b ts).
Proof.
  revert b. induction ts as [|now ts IH]; intros b Hr Hb; simpl; [constructor|].
  pose proof (allow_tokens_in_range b now Hr Hb) as Hb'.
  constructor; [done|].
  rewrite <- (allow_capacity b now) in Hb' |- *.
  apply IH; [by rewrite allow_rate | done].
Qed.

(** C2, as amended.  For a bucket constructed with a rate [r >= 0] and a
    capacity [c >= 0], after every call of a sequence of [allow] calls with
    non-decreasing timestamps the token count is in [0, c]. *)
Theorem allow_calls_tokens_bounded (r c : Q) (ts : list Q) :
  0 <= r → 0 <= c → Sorted Qle ts →
  Forall (λ res, tokens_in_range c res.2) (allow_calls (TokenBucket_init r c) ts).
Proof.
  intros Hr Hc _.
  apply (allow_calls_in_range (TokenBucket_init r c) ts); [done|].
  split; simpl; lra.
Qed.

Lemma allow_calls_tokens_bounded_witness :
  Forall (λ res, tokens_in_range 2 res.2)
    (allow_calls (TokenBucket_init 1 2) [0; 1 # 10; 3; 3; 7 # 2]).
Proof.
  apply allow_calls_tokens_bounded; [lra | lra |].
  repeat constructor; unfold Qle; simpl; lia.
Defined.

(** C2, as stated, fails: a negative capacity leaves the very first call
    with a negative token count, and a negative rate drains the bucket
    below 0 as time passes.  The timestamps are non-decreasing in both. *)
Lemma allow_calls_tokens_bounded_cex :
  (Sorted Qle [0] ∧
   ¬ Forall (λ res, tokens_in_range (-1) res.2)
       (allow_calls (TokenBucket_init 1 (-1)) [0])) ∧
  (Sorted Qle [0; 100] ∧
   ¬ Forall (λ res, tokens_in_range 10 res.2)
       (allow_calls (TokenBucket_init (-1) 10) [0; 100])).
Proof.
  split; (split; [repeat constructor; unfold Qle; simpl; lia|]).
  - intros Hall. apply Forall_inv in Hall. destruct Hall as [H0 _].
    vm_compute in H0. by apply H0.
  - intros Hall. apply Forall_inv_tail, Forall_inv in Hall. destruct Hall as [H0 _].
    vm_compute in H0. by apply H0.
Qed.

Lemma inject_Z_succ_nat (k : nat) :
  inject_Z (Z.of_nat (S k)) == inject_Z (Z.of_nat k) + 1.
Proof. rewrite Nat2Z.inj_succ, <- Z.add_1_r, inject_Z_plus. reflexivity. Qed.

(** One call in the steady state: a bucket that holds at least [c - 1]
    tokens and is called [delta] after its last refill is full again and
    lets the call through. *)
Lemma allow_after_gap (b : TokenBucket) (l now delta : Q) :
  last_time b = Some l → now - l == delta →
  0 < delta → 1 <= delta * rate b → 1 <= capacity b →
  capacity b - 1 <= tokens b →
  (allow b now).1 = true ∧ last_time (allow b now).2 = Some now ∧
  capacity b - 1 <= tokens (allow b now).2.
Proof.
  intros Hl Hgap Hd Hdr Hc Hb. unfold allow. rewrite Hl.
  destruct (Qltb_spec 0 (now - l)) as [Hpos | Hnp]; [|lra].
  cbn [set_last_time set_tokens tokens rate capacity last_time].
  assert (capacity b <= py_min (capacity b) (tokens b + (now - l) * rate b)) as Hfull.
  { apply py_min_glb; [lra|].
    assert ((now - l) * rate b == delta * rate b) as Hprod by (by rewrite Hgap).
    revert Hprod. generalize ((now - l) * rate b). intros x Hx. lra. }
  destruct (Qleb_spec 1 (py_min (capacity b) (tokens b + (now - l) * rate b)));
    cbn [fst snd set_tokens set_last_time tokens last_time]; [|lra].
  repeat split; lra.
Qed.

Lemma allow_calls_steady (r c t0 delta : Q) (n k : nat) (b : TokenBucket) :
  0 < delta → 1 <= delta * r → 1 <= c →
  rate b = r → capacity b = c → c - 1 <= tokens b →
  last_time b = Some (t0 + inject_Z (Z.of_nat k) * delta) →
  Forall (λ res, res.1 = true)
    (allow_calls b ((λ k, t0 + inject_Z (Z.of_nat k) * delta) <$> seq (S k) n)).
Proof.
  intros Hd Hdr Hc. revert k b.
  induction n as [|n IH]; intros k b Hrate Hcap Hb Hl; [constructor|].
  cbn [seq fmap list_fmap allow_calls].
  set (now := t0 + inject_Z (Z.of_nat (S k)) * delta).
  destruct (allow_after_gap b (t0 + inject_Z (Z.of_nat k) * delta) now delta)
    as (Hres & Hl' & Hb'); try done; try (rewrite ?Hrate, ?Hcap; lra).
  { unfold now. rewrite inject_Z_succ_nat. ring. }
  constructor; [done|].
  apply IH; rewrite ?allow_rate, ?allow_capacity; try done.
  by rewrite Hcap in Hb'.
Qed.

(** In exact arithmetic (timestamps, elapsed times and refills computed
    without rounding), a bucket with capacity [c >= 1] called at
    [t0 + k * delta] with [delta > 0] and [delta * r >= 1] allows every
    call. *)
Lemma exact_spacing_all_allowed (r c t0 delta : Q) (n : nat) :
  0 < delta → 1 <= delta * r → 1 <= c →
  Forall (λ res, res.1 = true) (allow_calls (TokenBucket_init r c) (spaced t0 delta n)).
Proof.
  intros Hd Hdr Hc. unfold spaced. destruct n as [|n]; [constructor|].
  cbn [seq fmap list_fmap allow_calls].
  assert (∀ now, (allow (TokenBucket_init r c) now).1 = true
                 ∧ last_time (allow (TokenBucket_init r c) now).2 = Some now
                 ∧ c - 1 <= tokens (allow (TokenBucket_init r c) now).2) as Hfirst.
  { intros now. unfold allow, TokenBucket_init.
    cbn [set_last_time set_tokens tokens rate capacity last_time].
    destruct (Qltb_spec 0 (now - now)); [lra|].
    cbn [set_last_time set_tokens tokens].
    destruct (Qleb_spec 1 c); [|lra].
    cbn [fst snd set_tokens set_last_time tokens last_time]. repeat split; lra. }
  destruct (Hfirst (t0 + inject_Z (Z.of_nat 0) * delta)) as (Hres & Hl & Hb).
  constructor; [done|].
  apply (allow_calls_steady r c t0 delta n 0); try done.
  - apply allow_rate.
  - apply allow_capacity.
Qed.

(** ** The token bucket on binary64 floats *)

Section Binary64.
Local Open Scope Z_scope.

Lemma Prim2SF_one : Prim2SF 1 = S754_finite false 4503599627370496 (-52).
Proof. reflexivity. Qed.

Lemma Prim2SF_zero : Prim2SF 0 = S754_zero false.
Proof. reflexivity. Qed.

Lemma digits2_pos_bounds p :
  2 ^ (Zpos (digits2_pos p) - 1) ≤ Zpos p < 2 ^ Zpos (digits2_pos p).
Proof.
  induction p as [p IH|p IH|]; cbn [digits2_pos]; [| |done].
  all: rewrite Pos2Z.inj_succ, Z.pow_succ_r by lia.
  all: replace (Z.succ (Zpos (digits2_pos p)) - 1) with (Z.succ (Zpos (digits2_pos p) - 1)) by lia.
  all: rewrite Z.pow_succ_r by lia; lia.
Qed.

Lemma digits2_pos_mono p q :
  (p ≤ q)%positive → Zpos (digits2_pos p) ≤ Zpos (digits2_pos q).
Proof.
  intros Hpq.
  pose proof (digits2_pos_bounds p) as [Hp _].
  pose proof (digits2_pos_bounds q) as [_ Hq].
  assert (2 ^ (Zpos (digits2_pos p) - 1) < 2 ^ Zpos (digits2_pos q)) as H by lia.
  apply Z.pow_lt_mono_r_iff in H; lia.
Qed.

Lemma digits2_pos_iter_xO p k :
  Zpos (digits2_pos (Pos.iter xO p k)) = Zpos (digits2_pos p) + Zpos k.
Proof.
  induction k as [|k IH] using Pos.peano_ind.
  - cbn. lia.
  - rewrite Pos.iter_succ. cbn [digits2_pos]. lia.
Qed.

Lemma shr_1_digits r :
  0 ≤ shr_m r →
  0 ≤ shr_m (shr_1 r) ∧
  Zdigits2 (shr_m (shr_1 r)) = Z.max 0 (Zdigits2 (shr_m r) - 1).
Proof.
  destruct r as [[|[p|p|]|p] r s]; cbn; lia.
Qed.

Lemma iter_shr_1_digits n r :
  0 ≤ shr_m r →
  0 ≤ shr_m (SpecFloat.iter_pos shr_1 n r) ∧
  Zdigits2 (shr_m (SpecFloat.iter_pos shr_1 n r)) = Z.max 0 (Zdigits2 (shr_m r) - Zpos n).
Proof.
  revert r. induction n as [n IH|n IH|]; intros r Hr; cbn [SpecFloat.iter_pos].
  - destruct (shr_1_digits r Hr) as [H1 E1].
    destruct (IH _ H1) as [H2 E2]. destruct (IH _ H2) as [H3 E3].
    split; [done|]. rewrite E3, E2, E1. lia.
  - destruct (IH _ Hr) as [H2 E2]. destruct (IH _ H2) as [H3 E3].
    split; [done|]. rewrite E3, E2. lia.
  - by apply shr_1_digits.
Qed.

Lemma shr_record_of_loc_m m l : shr_m (shr_record_of_loc m l) = m.
Proof. by destruct l as [|[]]. Qed.

Lemma shr_fexp_spec m e l :
  0 ≤ m →
  let n := fexp prec emax (Zdigits2 m + e) - e in
  let r := shr_fexp prec emax m e l in
  0 ≤ shr_m r.1 ∧
  (0 < n → Zdigits2 (shr_m r.1) = Z.max 0 (Zdigits2 m - n) ∧ r.2 = e + n) ∧
  (n ≤ 0 → shr_m r.1 = m ∧ r.2 = e).
Proof.
  intros Hm n r. subst r. unfold shr_fexp, shr. fold n.
  pose proof (shr_record_of_loc_m m l) as Hl.
  destruct n as [|p|p]; cbn [fst snd].
  - rewrite Hl. repeat split; try lia.
  - destruct (iter_shr_1_digits p (shr_record_of_loc m l)) as [H E]; [by rewrite Hl|].
    rewrite Hl in E. repeat split; try lia; try done.
  - rewrite Hl. repeat split; try lia.
Qed.

Lemma round_nearest_even_cases m l :
  round_nearest_even m l = m ∨ round_nearest_even m l = m + 1.
Proof.
  destruct l as [|[]]; cbn; auto. destruct (Z.even m); auto.
Qed.

Lemma Zdigits2_bounds m :
  0 < m → 2 ^ (Zdigits2 m - 1) ≤ m < 2 ^ Zdigits2 m.
Proof. destruct m; try lia. intros _. apply digits2_pos_bounds. Qed.

Lemma Zdigits2_unique m k :
  0 < m → 2 ^ (k - 1) ≤ m < 2 ^ k → Zdigits2 m = k.
Proof.
  intros Hm [Hlo Hhi]. pose proof (Zdigits2_bounds m Hm) as [Hlo' Hhi'].
  assert (0 < Zdigits2 m) by (destruct m; cbn; lia).
  assert (0 ≤ k).
  { destruct (Z.le_gt_cases 0 k); [done|]. rewrite Z.pow_neg_r in Hhi; lia. }
  assert (2 ^ (Zdigits2 m - 1) < 2 ^ k) as H1 by lia.
  apply Z.pow_lt_mono_r_iff in H1; [|lia|lia].
  destruct (Z.eq_dec k 0) as [->|]; [cbn in Hhi; lia|].
  assert (2 ^ (k - 1) < 2 ^ Zdigits2 m) as H2 by lia.
  apply Z.pow_lt_mono_r_iff in H2; lia.
Qed.

Lemma Zdigits2_succ m :
  0 ≤ m → Zdigits2 m = 53 → Zdigits2 (m + 1) = 53 ∨ Zdigits2 (m + 1) = 54.
Proof.
  intros Hm Hd. assert (0 < m) by (destruct m; cbn in *; lia).
  pose proof (Zdigits2_bounds m ltac:(done)) as [Hlo Hhi]. rewrite Hd in Hlo, Hhi.
  destruct (Z.lt_ge_cases (m + 1) (2 ^ 53)).
  - left. apply Zdigits2_unique; lia.
  - right. apply Zdigits2_unique; [lia|]. change (2 ^ (54 - 1)) with (2 ^ 53).
    change (2 ^ 54) with (2 * 2 ^ 53). lia.
Qed.


Lemma fexp_normal d : -1021 ≤ d → fexp prec emax d = d - 53.
Proof. unfold fexp, SpecFloat.emin, prec, emax. lia. Qed.

(** Rounding a positive mantissa of at least 53 digits whose value is at
    least 1 gives a float that is at least 1. *)
Lemma binary_round_aux_ge1 p e l :
  53 ≤ Zpos (digits2_pos p) → 1 ≤ Zpos (digits2_pos p) + e →
  ge1 (binary_round_aux prec emax false (Zpos p) e l).
Proof.
  intros Hd HD. unfold binary_round_aux.
  pose proof (shr_fexp_spec (Zpos p) e l ltac:(lia)) as (Hm1 & Hpos1 & Hle1).
  destruct (shr_fexp prec emax (Z.pos p) e l) as [mrs1 e1]. cbn [fst snd] in *.
  cbn [Zdigits2] in Hpos1, Hle1. rewrite fexp_normal in Hpos1, Hle1 by lia.
  assert (Zdigits2 (shr_m mrs1) = 53 ∧ e1 = Zpos (digits2_pos p) + e - 53) as [Hd1 He1].
  { destruct (Z.lt_ge_cases 0 (Zpos (digits2_pos p) + e - 53 - e)) as [Hn|Hn].
    - destruct (Hpos1 Hn) as [-> ->]. lia.
    - destruct (Hle1 Hn) as [-> ->]. cbn [Zdigits2]. lia. }
  clear Hpos1 Hle1.
  set (m2 := round_nearest_even (shr_m mrs1) (loc_of_shr_record mrs1)).
  assert (0 ≤ m2 ∧ (Zdigits2 m2 = 53 ∨ Zdigits2 m2 = 54)) as [Hm2 Hd2].
  { subst m2. destruct (round_nearest_even_cases (shr_m mrs1) (loc_of_shr_record mrs1))
      as [->| ->]; [auto|]. split; [lia|]. by apply Zdigits2_succ. }
  pose proof (shr_fexp_spec m2 e1 loc_Exact Hm2) as (Hm3 & Hpos3 & Hle3).
  destruct (shr_fexp prec emax m2 e1 loc_Exact) as [mrs3 e3]. cbn [fst snd] in *.
  rewrite fexp_normal in Hpos3, Hle3 by lia.
  assert (Zdigits2 (shr_m mrs3) = 53 ∧ -52 ≤ e3) as [Hd3 He3].
  { destruct (Z.lt_ge_cases 0 (Zdigits2 m2 + e1 - 53 - e1)) as [Hn|Hn].
    - destruct (Hpos3 Hn) as [-> ->]. lia.
    - destruct (Hle3 Hn) as [-> ->]. lia. }
  destruct (shr_m mrs3) as [|q|q]; cbn [Zdigits2] in Hd3; try lia.
  destruct (e3 <=? emax - prec); [right; eauto|by left].
Qed.

Lemma binary_round_ge1 p e :
  1 ≤ Zpos (digits2_pos p) + e → ge1 (binary_round prec emax false p e).
Proof.
  intros HD. unfold binary_round, shl_align. rewrite fexp_normal by lia.
  destruct (Z.pos (digits2_pos p) + e - 53 - e) as [|k|k] eqn:Hk.
  - apply binary_round_aux_ge1; lia.
  - apply binary_round_aux_ge1; lia.
  - apply binary_round_aux_ge1; rewrite digits2_pos_iter_xO; lia.
Qed.

Lemma shr_fexp_nonneg m e l : 0 ≤ m → 0 ≤ shr_m (shr_fexp prec emax m e l).1.
Proof. intros Hm. by destruct (shr_fexp_spec m e l Hm) as [? _]. Qed.

Lemma binary_round_aux_nonneg m e l :
  0 ≤ m → nonneg_sf (binary_round_aux prec emax false m e l).
Proof.
  intros Hm. unfold binary_round_aux.
  pose proof (shr_fexp_nonneg m e l Hm) as Hm1.
  destruct (shr_fexp prec emax m e l) as [mrs1 e1]. cbn [fst] in Hm1.
  set (m2 := round_nearest_even (shr_m mrs1) (loc_of_shr_record mrs1)).
  assert (0 ≤ m2) as Hm2.
  { subst m2. destruct (round_nearest_even_cases (shr_m mrs1) (loc_of_shr_record mrs1))
      as [->| ->]; lia. }
  pose proof (shr_fexp_nonneg m2 e1 loc_Exact Hm2) as Hm3.
  destruct (shr_fexp prec emax m2 e1 loc_Exact) as [mrs3 e3]. cbn [fst] in Hm3.
  destruct (shr_m mrs3) as [|q|q]; [done| |lia].
  by destruct (e3 <=? emax - prec).
Qed.

Lemma binary_normalize_nonneg m e :
  0 ≤ m → nonneg_sf (binary_normalize prec emax m e false).
Proof.
  intros Hm. destruct m as [|p|p]; [done| |lia].
  cbn [binary_normalize]. unfold binary_round.
  destruct (shl_align p e _) as [mz ez]. by apply binary_round_aux_nonneg.
Qed.

(** The aligned mantissa of a float keeps its value. *)
Lemma shl_align_digits m e e' :
  e' ≤ e →
  Zpos (digits2_pos (shl_align m e e').1) + e' = Zpos (digits2_pos m) + e.
Proof.
  intros He. unfold shl_align. destruct (e' - e) as [|k|k] eqn:Hk; cbn [fst]; try lia.
  rewrite digits2_pos_iter_xO. lia.
Qed.

Lemma ge1_nonneg s : ge1 s → nonneg_sf s.
Proof. by intros [->|(m & e & -> & _)]. Qed.

Lemma SFleb_one s :
  valid_binary s = true →
  SFleb (S754_finite false 4503599627370496 (-52)) s = true → ge1 s.
Proof.
  intros Hv Hle. destruct s as [[]|[]| |[] m e]; try done; [by left|].
  right. exists m, e. split; [done|].
  unfold SFleb, SFcompare in Hle.
  assert (-52 ≤ e) as He by (destruct (Z.compare_spec (-52) e); [lia|lia|done]).
  split; [done|].
  cbn [valid_binary] in Hv. unfold bounded, canonical_mantissa in Hv.
  apply andb_prop in Hv as [Hc _]. apply Z.eqb_eq in Hc.
  unfold fexp, SpecFloat.emin, prec, emax in Hc. lia.
Qed.

Lemma ge1_SFleb_one s :
  ge1 s → SFleb (S754_finite false 4503599627370496 (-52)) s = true.
Proof.
  intros [->|(m & e & -> & He & Hd)]; [done|].
  unfold SFleb, SFcompare.
  destruct (Z.compare_spec (-52) e) as [Heq|Hlt|Hgt]; [|done|lia].
  pose proof (digits2_pos_bounds m) as [Hlo _]. rewrite Hd in Hlo.
  change (2 ^ (53 - 1)) with 4503599627370496 in Hlo.
  rewrite Pos.compare_cont_spec. unfold Pos.switch_Eq.
  destruct (4503599627370496 ?= m)%positive eqn:Hcmp; [reflexivity|reflexivity|].
  apply Pos.compare_gt_iff, Pos2Z.pos_lt_pos in Hcmp. lia.
Qed.

Lemma nonneg_SFleb_zero s : nonneg_sf s ↔ SFleb (S754_zero false) s = true.
Proof. by destruct s as [[]|[]| |[] m e]. Qed.

(** *** Facts on binary64 comparisons, sums and differences *)

Lemma float_leb_1 x : (1 <=? x)%float = true ↔ ge1 (Prim2SF x).
Proof.
  rewrite leb_spec, Prim2SF_one. split; [|apply ge1_SFleb_one].
  apply SFleb_one, Prim2SF_valid.
Qed.

Lemma float_leb_0 x : (0 <=? x)%float = true ↔ nonneg_sf (Prim2SF x).
Proof. by rewrite leb_spec, Prim2SF_zero, nonneg_SFleb_zero. Qed.

(** [a + x >= 1] whenever [a >= 0] and [x >= 1]: rounding to nearest never
    takes a sum below a representable lower bound. *)
Lemma float_add_ge1 a x :
  (0 <=? a)%float = true → (1 <=? x)%float = true → (1 <=? a + x)%float = true.
Proof.
  rewrite float_leb_0, !float_leb_1, add_spec. unfold SF64add.
  pose proof (Prim2SF_valid a) as Hva.
  destruct (Prim2SF a) as [sa|[]|  |[] ma ea]; try done;
    intros _ [Hx|(mx & ex & Hx & He & Hd)]; rewrite Hx; cbn [SFadd];
    try (by left); try (right; by eauto).
  cbn [cond_Zopp]. rewrite <- Pos2Z.inj_add. cbn [binary_normalize].
  apply binary_round_ge1.
  pose proof (shl_align_digits mx ex (Z.min ea ex) ltac:(lia)) as Hal.
  pose proof (digits2_pos_mono (shl_align mx ex (Z.min ea ex)).1
                ((shl_align ma ea (Z.min ea ex)).1 + (shl_align mx ex (Z.min ea ex)).1)
                ltac:(lia)).
  lia.
Qed.

(** [m - 1 >= 0] whenever [m >= 1]. *)
Lemma float_sub1_nonneg m :
  (1 <=? m)%float = true → (0 <=? m - 1)%float = true.
Proof.
  rewrite float_leb_0, float_leb_1, sub_spec, Prim2SF_one. unfold SF64sub.
  intros [->|(mx & ex & -> & He & Hd)]; [done|]. cbn [SFsub cond_Zopp].
  apply binary_normalize_nonneg.
  replace (Z.min ex (-52)) with (-52) by lia.
  pose proof (shl_align_digits mx ex (-52) He) as Hal.
  pose proof (digits2_pos_bounds (shl_align mx ex (-52)).1) as [Hlo _].
  assert (2 ^ (53 - 1) ≤ 2 ^ (Zpos (digits2_pos (shl_align mx ex (-52)).1) - 1)) as Hp
    by (apply Z.pow_le_mono_r; lia).
  change (2 ^ (53 - 1)) with 4503599627370496 in Hp.
  change (shl_align 4503599627370496 (-52) (-52)).1 with 4503599627370496%positive.
  lia.
Qed.

(** [now - now] is never positive (it is 0, or NaN when [now] is not
    finite). *)
Lemma float_sub_diag_not_pos x : (0 <? x - x)%float = false.
Proof.
  rewrite ltb_spec, sub_spec, Prim2SF_zero. unfold SF64sub.
  destruct (Prim2SF x) as [[]|[]| |s m e]; try done.
  cbn [SFsub]. by rewrite Z.sub_diag.
Qed.

End Binary64.

Lemma py_min64_ge1 a b :
  (1 <=? a)%float = true → (1 <=? b)%float = true → (1 <=? py_min64 a b)%float = true.
Proof. intros Ha Hb. unfold py_min64. by destruct (b <? a)%float. Qed.

(** The first call of a fresh bucket with capacity at least 1. *)
Lemma allow64_first r c now :
  (1 <=? c)%float = true →
  (allow64 (TokenBucket64_init r c) now).1 = true ∧
  last_time64 (allow64 (TokenBucket64_init r c) now).2 = Some now ∧
  rate64 (allow64 (TokenBucket64_init r c) now).2 = r ∧
  capacity64 (allow64 (TokenBucket64_init r c) now).2 = c ∧
  (0 <=? tokens64 (allow64 (TokenBucket64_init r c) now).2)%float = true.
Proof.
  intros Hc.
  cbv beta iota zeta delta [allow64 TokenBucket64_init set_last_time64 set_tokens64
                            tokens64 rate64 capacity64 last_time64].
  rewrite float_sub_diag_not_pos, Hc. cbv beta iota delta [fst snd].
  split; [done|]. split; [done|]. split; [done|]. split; [done|].
  by apply float_sub1_nonneg.
Qed.

(** A later call whose computed refill is at least one token. *)
Lemma allow64_refilled b last now :
  last_time64 b = Some last →
  (1 <=? capacity64 b)%float = true → (0 <=? tokens64 b)%float = true →
  (0 <? now - last)%float = true → (1 <=? (now - last) * rate64 b)%float = true →
  (allow64 b now).1 = true ∧ last_time64 (allow64 b now).2 = Some now ∧
  rate64 (allow64 b now).2 = rate64 b ∧
  capacity64 (allow64 b now).2 = capacity64 b ∧
  (0 <=? tokens64 (allow64 b now).2)%float = true.
Proof.
  intros Hl Hc Ht Hpos Hrefill.
  assert ((1 <=? py_min64 (capacity64 b) (tokens64 b + (now - last) * rate64 b))%float
          = true) as Hfull by (by apply py_min64_ge1, float_add_ge1).
  unfold allow64. rewrite Hl, Hpos.
  cbv beta iota zeta delta [set_last_time64 set_tokens64 tokens64].
  fold (tokens64 b). fold (capacity64 b) (rate64 b).
  rewrite Hfull. cbv beta iota delta [fst snd last_time64 rate64 capacity64].
  split; [done|]. split; [done|]. split; [done|]. split; [done|].
  by apply float_sub1_nonneg.
Qed.

Lemma allow64_calls_refilled b last ts :
  last_time64 b = Some last →
  (1 <=? capacity64 b)%float = true → (0 <=? tokens64 b)%float = true →
  forallb (λ elapsed, (0 <? elapsed)%float && (1 <=? elapsed * rate64 b)%float)
    (gaps64_from last ts) = true →
  Forall (λ res, res.1 = true) (allow64_calls b ts).
Proof.
  revert b last. induction ts as [|now ts IH]; intros b last Hl Hc Ht Hall; [constructor|].
  cbn [gaps64_from forallb] in Hall.
  apply andb_prop in Hall as [Hnow Hall]. apply andb_prop in Hnow as [Hpos Hrefill].
  destruct (allow64_refilled b last now Hl Hc Ht Hpos Hrefill) as (Hres & Hl' & Hr & Hc' & Ht').
  cbn [allow64_calls]. constructor; [done|].
  apply (IH _ now); [done|by rewrite Hc'|done|by rewrite Hr].
Qed.

Lemma allow64_calls_all_allowed r c ts :
  (1 <=? c)%float = true → refills_whole_token r ts = true →
  Forall (λ res, res.1 = true) (allow64_calls (TokenBucket64_init r c) ts).
Proof.
  intros Hc Hall. destruct ts as [|t0 ts]; [constructor|].
  destruct (allow64_first r c t0 Hc) as (Hres & Hl & Hr & Hc' & Ht).
  cbn [allow64_calls]. constructor; [done|].
  apply (allow64_calls_refilled _ t0); [done|by rewrite Hc'|done|by rewrite Hr].
Qed.

(** C8, as amended.  For a bucket with capacity [c >= 1] and calls at the
    timestamps [t0], [t0 + delta], [t0 + 2 * delta], ..., every call of the
    sequence, however long, returns true, provided every difference of two
    consecutive timestamps, as the code computes it on binary64 floats, is
    positive and its computed product with the rate is at least 1. *)
Theorem spaced_calls_all_allowed (r c t0 delta : float) (n : nat) :
  (1 <=? c)%float = true →
  refills_whole_token r (spaced64 t0 delta n) = true →
  Forall (λ res, res.1 = true)
    (allow64_calls (TokenBucket64_init r c) (spaced64 t0 delta n)).
Proof. apply allow64_calls_all_allowed. Qed.

Lemma spaced_calls_all_allowed_witness :
  Forall (λ res, res.1 = true)
    (allow64_calls (TokenBucket64_init 50 1) (spaced64 1000 (1 / 40) 40)).
Proof. apply spaced_calls_all_allowed; vm_compute; reflexivity. Defined.

(** C8, as stated, fails twice over.  A bucket whose capacity is below one
    token never allows: with rate 1, capacity 1/2 and calls one second
    apart, the first call (and every later one) is refused.  And a capacity
    of at least 1 with [delta * r >= 1] is not enough: with rate 50,
    capacity 1 and calls at [1000 + k * (1 / 50)], where
    [(1 / 50) * 50 >= 1], every other call is refused, because the
    difference of two rounded timestamps refills 0.99999999999909051
    tokens. *)
Lemma spaced_calls_all_allowed_cex :
  ((0 <? 1)%float = true ∧ (1 <=? 1 * 1)%float = true ∧
   (λ res, res.1) <$> allow64_calls (TokenBucket64_init 1 (1 / 2)) (spaced64 0 1 3)
   = [false; false; false]) ∧
  ((0 <? 1 / 50)%float = true ∧ (1 <=? 1 / 50 * 50)%float = true ∧
   (1 <=? 1)%float = true ∧
   (λ res, res.1) <$> allow64_calls (TokenBucket64_init 50 1) (spaced64 1000 (1 / 50) 6)
   = [true; false; true; false; true; false]).
Proof. repeat split; vm_compute; reflexivity. Qed.

(** ** The filter pipeline *)

(** The order of the rules on the demonstration configuration: the denied
    flow is dropped for its header even with a signature in its payload, a
    signature on another flow is dropped for its payload, clean traffic is
    forwarded. *)
Example process_demo_verdicts :
  let f := ATMFilter_init (Some (HeaderRule_init demo_deny)) (Some (PayloadRule_init demo_sigs))
             demo_policer_cfg in
  (process f (mkCell 1 30 "BADSIG_1" true 0) 0).1 = ("drop", Some "header") ∧
  (process f (mkCell 1 20 "BADSIG_1" true 0) 0).1 = ("drop", Some "payload") ∧
  (process f (mkCell 1 20 "NORMALDATA" false 0) 0).1 = ("forward", None).
Proof. vm_compute. done. Qed.

(** C1.  A cell whose flow key is in the header denylist is dropped with
    reason "header", whatever the policers and the payload are, and the
    filter, hence every bucket's [tokens] and [last_time], is as it was. *)
Theorem process_header_denied (f : ATMFilter) (cell : ATMCell) (now : Q) :
  header cell ∈ deny_list (header_rule f) →
  process f cell now = (("drop", Some "header"), f).
Proof.
  intros Hin. unfold process, HeaderRule_check.
  by rewrite bool_decide_eq_true_2.
Qed.

Lemma process_header_denied_witness :
  process
    (ATMFilter_init (Some (HeaderRule_init (Some [(0, 10)%Z]))) (Some (PayloadRule_init demo_sigs))
       demo_policer_cfg)
    (mkCell 0 10 "BADSIG_7" true 1000) 1000
  = (("drop", Some "header"),
     ATMFilter_init (Some (HeaderRule_init (Some [(0, 10)%Z]))) (Some (PayloadRule_init demo_sigs))
       demo_policer_cfg).
Proof. apply process_header_denied. vm_compute. set_solver. Defined.

(** C7.  A cell whose flow key is neither denied nor policed goes straight
    to the payload check: the verdict is "drop"/"payload" or "forward",
    never "drop"/"policer", and the filter, its policer map included, is as
    it was (no bucket is read, written or created). *)
Theorem process_unpoliced (f : ATMFilter) (cell : ATMCell) (now : Q) :
  header cell ∉ deny_list (header_rule f) →
  policers f !! header cell = None →
  process f cell now =
    ((if PayloadRule_check (payload_rule f) cell
      then ("drop", Some "payload") else ("forward", None)), f).
Proof.
  intros Hnot Hnone. unfold process, HeaderRule_check.
  rewrite bool_decide_eq_false_2 by done. cbn zeta. rewrite Hnone.
  by destruct (PayloadRule_check (payload_rule f) cell).
Qed.

Lemma process_unpoliced_witness :
  process
    (ATMFilter_init (Some (HeaderRule_init demo_deny)) (Some (PayloadRule_init demo_sigs))
       demo_policer_cfg)
    (mkCell 2 10 "NORMALDATA" false 1000) 1000
  = (("forward", None),
     ATMFilter_init (Some (HeaderRule_init demo_deny)) (Some (PayloadRule_init demo_sigs))
       demo_policer_cfg).
Proof.
  apply (process_unpoliced
           (ATMFilter_init (Some (HeaderRule_init demo_deny)) (Some (PayloadRule_init demo_sigs))
              demo_policer_cfg)
           (mkCell 2 10 "NORMALDATA" false 1000) 1000).
  - vm_compute. set_solver.
  - reflexivity.
Defined.

(** The verdicts of [process] are the four pairs of its [return]s. *)
Lemma process_verdict (f : ATMFilter) (cell : ATMCell) (now : Q) :
  (process f cell now).1 ∈
    [("drop", Some "header"); ("drop", Some "policer"); ("drop", Some "payload");
     ("forward", None)].
Proof.
  unfold process. destruct (HeaderRule_check (header_rule f) cell); [set_solver|].
  cbn zeta. destruct (policers f !! header cell) as [b|].
  - destruct (allow b now) as [[] b']; cbn [negb];
      [destruct (PayloadRule_check _ cell)|]; set_solver.
  - destruct (PayloadRule_check _ cell); set_solver.
Qed.

(** ** The counters *)

Lemma get_incr_eq (k : string) (s : Stats) : get k (incr k s) = (get k s + 1)%Z.
Proof. unfold incr. unfold get at 1. by rewrite lookup_insert_eq. Qed.

Lemma get_incr_ne (k k' : string) (s : Stats) : k' ≠ k → get k (incr k' s) = get k s.
Proof. intros Hne. unfold incr. unfold get at 1. by rewrite lookup_insert_ne. Qed.

Lemma get_insert_same (k k' : string) (s : Stats) : get k (<[k' := get k' s]> s) = get k s.
Proof.
  unfold get at 1. destruct (decide (k' = k)) as [->|Hne].
  - by rewrite lookup_insert_eq.
  - by rewrite lookup_insert_ne.
Qed.

Lemma get_empty (k : string) : get k (∅ : Stats) = 0%Z.
Proof. unfold get. by rewrite lookup_empty. Qed.

Ltac get_incr :=
  repeat first [ rewrite get_incr_eq | rewrite get_incr_ne by discriminate ].

Lemma counters_consistent_empty : counters_consistent ∅.
Proof. unfold counters_consistent. by rewrite !get_empty. Qed.

Section Counters.
Context {G : Type} `{PRNG G}.

(** After every processed cell the counters still add up. *)
Lemma count_cell_consistent (f : ATMFilter) (stats : Stats) (cell : ATMCell) (now : Q) :
  counters_consistent stats → counters_consistent (count_cell f stats cell now).2.
Proof.
  intros (Ht & Hl & Hm & Hd). unfold count_cell.
  pose proof (process_verdict f cell now) as Hv.
  destruct (process f cell now) as [[action reason] f']. cbn [fst] in Hv.
  unfold counters_consistent.
  repeat (apply elem_of_cons in Hv as [Hv | Hv]); [..|by apply elem_of_nil in Hv];
    injection Hv as -> ->; cbn [String.eqb Ascii.eqb Bool.eqb snd];
    repeat match goal with
           | |- context [dropped_key ?r] =>
               let key := eval vm_compute in (dropped_key r) in
               change (dropped_key r) with key
           end;
    destruct (is_malicious cell); get_incr; lia.
Qed.

Lemma incr_nonneg (k : string) (s : Stats) : counters_nonneg s → counters_nonneg (incr k s).
Proof.
  intros Hs k'. destruct (decide (k = k')) as [->|Hne].
  - rewrite get_incr_eq. specialize (Hs k'). lia.
  - by rewrite get_incr_ne.
Qed.

Lemma count_cell_nonneg (f : ATMFilter) (stats : Stats) (cell : ATMCell) (now : Q) :
  counters_nonneg stats → counters_nonneg (count_cell f stats cell now).2.
Proof.
  intros Hs. unfold count_cell.
  destruct (process f cell now) as [[action reason] f'].
  destruct (String.eqb action "drop"), (is_malicious cell); cbn [snd];
    repeat apply incr_nonneg; done.
Qed.

Lemma gen_next_emitted (gen gen' : TrafficGen) (w w' : World G) (x : Q * ATMCell) :
  gen_next gen w = Some (x, gen', w') → emitted w' = emitted w.
Proof.
  unfold gen_next. destruct (Qltb _ _); [|done].
  destruct (rng_choice _ _) as [v1 g1], (rng_choice _ g1) as [v2 g2],
    (rng_random g2) as [x3 g3].
  destruct (Qltb x3 _); [destruct (rng_randint _ _ g3) as [n g4]|];
    cbn; intros [= <- <- <-]; done.
Qed.

(** What holds of the counters at the start and survives every cell holds
    when the loop of [run_simulation] ends. *)
Lemma sim_loop_invariant (P : Stats → Prop) :
  (∀ f s cell now, P s → P (count_cell f s cell now).2) →
  ∀ fuel now_base gen w f stats f' stats' w',
    P stats → sim_loop fuel now_base gen w f stats = Ok (f', stats', w') → P stats'.
Proof.
  intros Hstep. induction fuel as [|fuel IH]; intros now_base gen w f stats f' stats' w' HP;
    cbn [sim_loop]; destruct (gen_next gen w) as [[[[t cell] gen1] w1]|];
    try (intros [= <- <- <-]; done); try done.
  pose proof (Hstep f stats cell (now_base + t) HP) as HP'.
  destruct (count_cell f stats cell (now_base + t)) as [f1 stats1].
  by apply IH.
Qed.

(** The same for the loop of [run_simulation_emit], together with a
    property of the events: every snapshot it sends was built from counters
    that satisfy [P]. *)
Lemma emit_loop_invariant (P : Stats → Prop) (E : Event → Prop) :
  (∀ f s cell now, P s → P (count_cell f s cell now).2) →
  (∀ s, P s → E (sim_update (emit_stats_of s))) →
  ∀ fuel now_base upd gen w f stats last bc f' stats' w',
    P stats → Forall E (emitted w) →
    emit_loop fuel now_base upd gen w f stats last bc = Ok (f', stats', w') →
    P stats' ∧ Forall E (emitted w').
Proof.
  intros Hstep Hsnap.
  induction fuel as [|fuel IH];
    intros now_base upd gen w f stats last bc f' stats' w' HP HE;
    cbn [emit_loop]; destruct (gen_next gen w) as [[[[t cell] gen1] w1]|] eqn:Hgen;
    try (intros [= <- <- <-]; done); try done.
  apply gen_next_emitted in Hgen.
  pose proof (Hstep f stats cell (now_base + t) HP) as HP'.
  destruct (count_cell f stats cell (now_base + t)) as [f1 stats1]. cbn [snd] in HP'.
  cbn [time_time].
  destruct (Qleb upd _).
  - apply IH; [done|]. cbn [socketio_emit emitted].
    apply Forall_app. split; [by rewrite Hgen | by repeat constructor; apply Hsnap].
  - apply IH; [done|]. cbn [emitted]. by rewrite Hgen.
Qed.

Lemma get_emit_stats_of (k : string) (s : Stats) :
  k ∈ ["total"; "forwarded"; "dropped"; "dropped_header"; "dropped_policer";
       "dropped_payload"; "mal_total"; "mal_forwarded"; "mal_dropped";
       "legit_total"; "legit_forwarded"; "legit_dropped"] →
  get k (emit_stats_of s) = get k s.
Proof.
  intros Hk. unfold emit_stats_of. cbn [fmap list_fmap list_to_map foldr uncurry].
  repeat (apply elem_of_cons in Hk as [-> | Hk]); [..|by apply elem_of_nil in Hk];
    unfold get at 1;
    repeat first [ rewrite lookup_insert_eq | rewrite lookup_insert_ne by discriminate ]; done.
Qed.

Lemma emit_stats_of_consistent (s : Stats) :
  counters_consistent s → counters_consistent (emit_stats_of s).
Proof.
  unfold counters_consistent. rewrite !get_emit_stats_of; [done|..]; set_solver.
Qed.

Lemma truthy_pos (k : string) (s : Stats) :
  counters_nonneg s → truthy k s = (0 <? get k s)%Z.
Proof.
  intros Hs. specialize (Hs k). unfold truthy, get in *.
  destruct (s !! k) as [n|]; simpl in *; [|done].
  destruct (Z.eqb_spec n 0), (Z.ltb_spec 0 n); cbn [negb]; try done; lia.
Qed.

Lemma int_div_pos (a b : Z) : (0 <? b)%Z = true → int_div a b = Ok (inject_Z a / inject_Z b).
Proof. intros Hb. unfold int_div. destruct (Z.eqb_spec b 0); [lia|done]. Qed.

(** The end of [run_simulation]: the division is never by zero, the rates
    are the specified ones, and reading the counters is all that happens to
    them. *)
Lemma derive_metrics_spec (s : Stats) :
  counters_nonneg s →
  ∃ final, derive_metrics s = Ok final ∧ rates_as_specified final
           ∧ ∀ k, get k (counters final) = get k s.
Proof.
  intros Hs. unfold derive_metrics, rates_as_specified, rate_spec, getitem.
  rewrite (truthy_pos "legit_total" s Hs).
  destruct (0 <? get "legit_total" s)%Z eqn:Hl; cbn [mbind outcome_bind].
  - rewrite get_insert_same, (int_div_pos _ _ Hl). cbn [mbind outcome_bind].
    set (s1 := <["legit_total" := get "legit_total" s]>
                 (<["legit_dropped" := get "legit_dropped" s]> s)).
    assert (∀ k, get k s1 = get k s) as Hs1.
    { intros k. unfold s1.
      rewrite <- (get_insert_same "legit_total" "legit_dropped" s) at 1.
      by rewrite !get_insert_same. }
    assert (counters_nonneg s1) as Hn1 by (intros k; rewrite Hs1; apply Hs).
    rewrite (truthy_pos "mal_total" s1 Hn1), (Hs1 "mal_total").
    destruct (0 <? get "mal_total" s)%Z eqn:Hm; cbn [mbind outcome_bind].
    + rewrite get_insert_same, !Hs1, (int_div_pos _ _ Hm). cbn [mbind outcome_bind].
      eexists. split; [reflexivity|]. cbn [counters false_positive_rate false_negative_rate].
      assert (∀ k, get k (<["mal_total" := get "mal_total" s]>
                            (<["mal_forwarded" := get "mal_forwarded" s]> s1)) = get k s) as Hs2.
      { intros k. rewrite <- (Hs1 "mal_total"), <- (Hs1 "mal_forwarded").
        rewrite <- (get_insert_same "mal_total" "mal_forwarded" s1) at 1.
        by rewrite !get_insert_same. }
      rewrite !Hs2, Hl, Hm. done.
    + eexists. split; [reflexivity|]. cbn [counters false_positive_rate false_negative_rate].
      rewrite !Hs1, Hl, Hm. done.
  - rewrite (truthy_pos "mal_total" s Hs).
    destruct (0 <? get "mal_total" s)%Z eqn:Hm; cbn [mbind outcome_bind].
    + rewrite get_insert_same, (int_div_pos _ _ Hm). cbn [mbind outcome_bind].
      eexists. split; [reflexivity|]. cbn [counters false_positive_rate false_negative_rate].
      assert (∀ k, get k (<["mal_total" := get "mal_total" s]>
                            (<["mal_forwarded" := get "mal_forwarded" s]> s)) = get k s) as Hs2.
      { intros k.
        rewrite <- (get_insert_same "mal_total" "mal_forwarded" s) at 1.
        by rewrite !get_insert_same. }
      rewrite !Hs2, Hl, Hm. done.
    + eexists. split; [reflexivity|]. cbn [counters false_positive_rate false_negative_rate].
      rewrite Hl, Hm. done.
Qed.

(** The end of [run_simulation_emit]. *)
Lemma final_emit_spec (s : Stats) :
  counters_nonneg s →
  ∃ final, final_emit s = Ok final ∧ rates_as_specified final ∧ counters final = s.
Proof.
  intros Hs. unfold final_emit, rates_as_specified, rate_spec.
  rewrite !(truthy_pos _ s Hs).
  assert (∀ k, (0 <? get k s)%Z = true → get_default k 1 s = get k s) as Hden.
  { intros k Hk. unfold get_default, get in *. by destruct (s !! k). }
  change (get_default "legit_dropped" 0 s) with (get "legit_dropped" s).
  change (get_default "mal_forwarded" 0 s) with (get "mal_forwarded" s).
  destruct (0 <? get "legit_total" s)%Z eqn:Hl;
    destruct (0 <? get "mal_total" s)%Z eqn:Hm;
    rewrite ?(Hden _ Hl), ?(Hden _ Hm), ?(int_div_pos _ _ Hl), ?(int_div_pos _ _ Hm);
    cbn [mbind outcome_bind]; eexists; (split; [reflexivity|]);
    cbn [counters false_positive_rate false_negative_rate]; rewrite ?Hl, ?Hm; done.
Qed.

(** ** Whole runs *)

(** A run of [run_simulation] that returns went through its three stages. *)
Lemma run_simulation_Ok fuel (w : World G) duration rate mal_frac deny sigs cfg seed final w1 :
  run_simulation fuel w duration rate mal_frac deny sigs cfg seed = Ok (final, w1) →
  ∃ gen w0 f' stats,
    generate_traffic duration rate mal_frac seed (time_time w).2 = Ok (gen, w0) ∧
    sim_loop fuel (time_time w).1 gen w0
      (ATMFilter_init (Some (HeaderRule_init deny)) (Some (PayloadRule_init sigs)) cfg) ∅
    = Ok (f', stats, w1) ∧
    derive_metrics stats = Ok final.
Proof.
  unfold run_simulation. destruct (time_time w) as [now_base w0'] eqn:Ht. cbn [fst snd].
  destruct (generate_traffic _ _ _ _ w0') as [[gen w0]| |]; cbn [mbind outcome_bind]; try done.
  destruct (sim_loop _ _ _ _ _ _) as [[[f' stats] w']| |] eqn:Hloop;
    cbn [mbind outcome_bind]; try done.
  destruct (derive_metrics stats) as [fin| |] eqn:Hfin; cbn [mbind outcome_bind]; try done.
  intros [= <- <-]. by exists gen, w0, f', stats.
Qed.

(** A run of [run_simulation_emit] that returns did the same and sent
    [sim_done] last. *)
Lemma run_simulation_emit_Ok fuel (w : World G) duration rate mal_frac deny sigs cfg upd seed w2 :
  run_simulation_emit fuel w duration rate mal_frac deny sigs cfg upd seed = Ok w2 →
  ∃ gen w0 f' stats w' final,
    generate_traffic duration rate mal_frac seed (time_time w).2 = Ok (gen, w0) ∧
    emit_loop fuel (time_time w).1 upd gen w0
      (ATMFilter_init (Some (HeaderRule_init deny)) (Some (PayloadRule_init sigs)) cfg) ∅
      (time_time w).1 0
    = Ok (f', stats, w') ∧
    final_emit stats = Ok final ∧
    emitted w2 = emitted w' ++ [sim_done final].
Proof.
  unfold run_simulation_emit. destruct (time_time w) as [now_base w0'] eqn:Ht. cbn [fst snd].
  destruct (generate_traffic _ _ _ _ w0') as [[gen w0]| |]; cbn [mbind outcome_bind]; try done.
  destruct (emit_loop _ _ _ _ _ _ _ _ _) as [[[f' stats] w']| |] eqn:Hloop;
    cbn [mbind outcome_bind]; try done.
  destruct (final_emit stats) as [fin| |] eqn:Hfin; cbn [mbind outcome_bind]; try done.
  intros [= <-]. by exists gen, w0, f', stats, w', fin.
Qed.

Lemma generate_traffic_emitted duration rate mal_frac seed (w w0 : World G) gen :
  generate_traffic duration rate mal_frac seed w = Ok (gen, w0) → emitted w0 = emitted w.
Proof.
  unfold generate_traffic. destruct (float_div 1 rate); cbn [mbind outcome_bind]; try done.
  intros [= _ <-]. by destruct seed.
Qed.

(** The loops themselves raise nothing. *)
Lemma sim_loop_no_raise fuel now_base gen (w : World G) f stats :
  sim_loop fuel now_base gen w f stats ≠ ZeroDivisionError.
Proof.
  revert gen w f stats. induction fuel as [|fuel IH]; intros gen w f stats;
    cbn [sim_loop]; destruct (gen_next gen w) as [[[[t cell] gen1] w1]|]; try done.
  destruct (count_cell f stats cell (now_base + t)) as [f1 stats1]. apply IH.
Qed.

Lemma emit_loop_no_raise fuel now_base upd gen (w : World G) f stats last bc :
  emit_loop fuel now_base upd gen w f stats last bc ≠ ZeroDivisionError.
Proof.
  revert gen w f stats last bc.
  induction fuel as [|fuel IH]; intros gen w f stats last bc;
    cbn [emit_loop]; destruct (gen_next gen w) as [[[[t cell] gen1] w1]|]; try done.
  destruct (count_cell f stats cell (now_base + t)) as [f1 stats1]. cbn [time_time].
  destruct (Qleb upd _); apply IH.
Qed.

Lemma counters_nonneg_empty : counters_nonneg ∅.
Proof. intros k. by rewrite get_empty. Qed.

End Counters.

Lemma is_Ok_inv {A : Type} (o : outcome A) : is_Ok o = true → ∃ a, o = Ok a.
Proof. destruct o as [a| |]; [by exists a | done..]. Qed.

(** C10.  In the dictionary that [run_simulation] returns, and in every
    event that [run_simulation_emit] sends (each periodic [sim_update] and
    the closing [sim_done]), the counters add up:
    total = forwarded + dropped, legit_total = legit_forwarded +
    legit_dropped, mal_total = mal_forwarded + mal_dropped and
    dropped = dropped_header + dropped_policer + dropped_payload.  They do
    so after every processed cell ([count_cell_consistent]). *)
Theorem counters_consistent_throughout {G : Type} `{PRNG G}
    fuel (w : World G) duration rate mal_frac deny sigs cfg upd seed final w1 w2 :
  Forall (λ e, counters_consistent (event_stats e)) (emitted w) →
  run_simulation fuel w duration rate mal_frac deny sigs cfg seed = Ok (final, w1) →
  run_simulation_emit fuel w duration rate mal_frac deny sigs cfg upd seed = Ok w2 →
  counters_consistent (counters final) ∧
  Forall (λ e, counters_consistent (event_stats e)) (emitted w2).
Proof.
  intros Hlog Hrun Hemit. split.
  - apply run_simulation_Ok in Hrun as (gen & w0 & f' & stats & _ & Hloop & Hfin).
    apply (sim_loop_invariant (λ s, counters_consistent s ∧ counters_nonneg s)) in Hloop
      as [Hc Hn].
    + destruct (derive_metrics_spec stats Hn) as (final' & Hfin' & _ & Hget).
      rewrite Hfin in Hfin'. injection Hfin' as <-.
      unfold counters_consistent. by rewrite !Hget.
    + intros f s cell now [Hc Hn].
      split; [by apply count_cell_consistent | by apply count_cell_nonneg].
    + split; [apply counters_consistent_empty | apply counters_nonneg_empty].
  - apply run_simulation_emit_Ok in Hemit
      as (gen & w0 & f' & stats & w' & fin & Hgen & Hloop & Hfin & ->).
    apply generate_traffic_emitted in Hgen.
    apply (emit_loop_invariant (λ s, counters_consistent s ∧ counters_nonneg s)
             (λ e, counters_consistent (event_stats e))) in Hloop as [[Hc Hn] Hev].
    + destruct (final_emit_spec stats Hn) as (final' & Hfin' & _ & Hcnt).
      rewrite Hfin in Hfin'. injection Hfin' as <-.
      apply Forall_app. split; [done|]. constructor; [|constructor].
      cbn [event_stats]. by rewrite Hcnt.
    + intros f s cell now [Hc Hn].
      split; [by apply count_cell_consistent | by apply count_cell_nonneg].
    + intros s [Hc _]. by apply emit_stats_of_consistent.
    + split; [apply counters_consistent_empty | apply counters_nonneg_empty].
    + by rewrite Hgen.
Qed.

Lemma counters_consistent_throughout_witness :
  ∃ final w1 w2,
    run_simulation 50 (Lcg.world 1000) (1 # 5) 100 (1 # 4)
      demo_deny demo_sigs demo_policer_cfg (Some 7%Z) = Ok (final, w1) ∧
    run_simulation_emit 50 (Lcg.world 1000) (1 # 5) 100 (1 # 4)
      demo_deny demo_sigs demo_policer_cfg (1 # 200) (Some 7%Z) = Ok w2 ∧
    counters_consistent (counters final) ∧
    Forall (λ e, counters_consistent (event_stats e)) (emitted w2).
Proof.
  destruct (is_Ok_inv (run_simulation 50 (Lcg.world 1000) (1 # 5) 100 (1 # 4)
                         demo_deny demo_sigs demo_policer_cfg (Some 7%Z)))
    as [[final w1] Hsim]; [vm_compute; reflexivity|].
  destruct (is_Ok_inv (run_simulation_emit 50 (Lcg.world 1000) (1 # 5) 100 (1 # 4)
                         demo_deny demo_sigs demo_policer_cfg (1 # 200) (Some 7%Z)))
    as [w2 Hemit]; [vm_compute; reflexivity|].
  exists final, w1, w2. split; [exact Hsim|]. split; [exact Hemit|].
  apply (counters_consistent_throughout 50 (Lcg.world 1000) (1 # 5) 100 (1 # 4)
           demo_deny demo_sigs demo_policer_cfg (1 # 200) (Some 7%Z) final w1 w2);
    [constructor | exact Hsim | exact Hemit].
Defined.

(** C5.  Unless the run stops on [1.0 / total_rate] with a zero rate,
    nothing in it divides by zero, and the final result of both
    [run_simulation] and [run_simulation_emit] carries the counters that
    the loop over the cells accumulated together with the two rates
    computed from them: the false positive rate is legit_dropped /
    legit_total when legit_total > 0 and 0.0 otherwise, the false negative
    rate is mal_forwarded / mal_total when mal_total > 0 and 0.0
    otherwise. *)
Theorem derived_rates_as_specified {G : Type} `{PRNG G}
    fuel (w : World G) duration rate mal_frac deny sigs cfg upd seed :
  ¬ rate == 0 →
  (run_simulation fuel w duration rate mal_frac deny sigs cfg seed ≠ ZeroDivisionError ∧
   ∀ final w1,
     run_simulation fuel w duration rate mal_frac deny sigs cfg seed = Ok (final, w1) →
     ∃ gen w0 f' stats,
       generate_traffic duration rate mal_frac seed (time_time w).2 = Ok (gen, w0) ∧
       sim_loop fuel (time_time w).1 gen w0
         (ATMFilter_init (Some (HeaderRule_init deny)) (Some (PayloadRule_init sigs)) cfg) ∅
       = Ok (f', stats, w1) ∧
       (∀ k, get k (counters final) = get k stats) ∧
       false_positive_rate final
       = rate_spec (get "legit_dropped" stats) (get "legit_total" stats) ∧
       false_negative_rate final
       = rate_spec (get "mal_forwarded" stats) (get "mal_total" stats)) ∧
  (run_simulation_emit fuel w duration rate mal_frac deny sigs cfg upd seed ≠ ZeroDivisionError ∧
   ∀ w2,
     run_simulation_emit fuel w duration rate mal_frac deny sigs cfg upd seed = Ok w2 →
     ∃ gen w0 f' stats w' final,
       generate_traffic duration rate mal_frac seed (time_time w).2 = Ok (gen, w0) ∧
       emit_loop fuel (time_time w).1 upd gen w0
         (ATMFilter_init (Some (HeaderRule_init deny)) (Some (PayloadRule_init sigs)) cfg) ∅
         (time_time w).1 0
       = Ok (f', stats, w') ∧
       last (emitted w2) = Some (sim_done final) ∧
       counters final = stats ∧
       false_positive_rate final
       = rate_spec (get "legit_dropped" stats) (get "legit_total" stats) ∧
       false_negative_rate final
       = rate_spec (get "mal_forwarded" stats) (get "mal_total" stats)).
Proof.
  intros Hrate.
  assert (float_div 1 rate = Ok (1 / rate)) as Hdt.
  { unfold float_div. destruct (Qeq_bool rate 0) eqn:E; [|done].
    by apply Qeq_bool_iff in E. }
  set (inv := λ s : Stats, counters_nonneg s).
  assert (∀ f s cell now, inv s → inv (count_cell f s cell now).2) as Hstep
    by (intros; by apply count_cell_nonneg).
  split; split.
  - unfold run_simulation, generate_traffic. rewrite Hdt. cbn [time_time mbind outcome_bind].
    destruct (sim_loop _ _ _ _ _ _) as [[[f' stats] w']| |] eqn:Hloop;
      cbn [mbind outcome_bind]; try done; [|by apply sim_loop_no_raise in Hloop].
    apply (sim_loop_invariant inv Hstep) in Hloop; [|apply counters_nonneg_empty].
    destruct (derive_metrics_spec stats Hloop) as (final & -> & _).
    by cbn [mbind outcome_bind].
  - intros final w1 Hrun.
    apply run_simulation_Ok in Hrun as (gen & w0 & f' & stats & Hgen & Hloop & Hfin).
    pose proof Hloop as Hn.
    apply (sim_loop_invariant inv Hstep) in Hn; [|apply counters_nonneg_empty].
    destruct (derive_metrics_spec stats Hn) as (final' & Hfin' & [Hfpr Hfnr] & Hget).
    rewrite Hfin in Hfin'. injection Hfin' as <-.
    exists gen, w0, f', stats. split; [done|]. split; [done|]. split; [done|].
    by rewrite Hfpr, Hfnr, !Hget.
  - unfold run_simulation_emit, generate_traffic. rewrite Hdt.
    cbn [time_time mbind outcome_bind].
    destruct (emit_loop _ _ _ _ _ _ _ _ _) as [[[f' stats] w']| |] eqn:Hloop;
      cbn [mbind outcome_bind]; try done; [|by apply emit_loop_no_raise in Hloop].
    apply (emit_loop_invariant inv (λ _, True) Hstep) in Hloop as [Hn _];
      [|done|apply counters_nonneg_empty|by apply Forall_true].
    destruct (final_emit_spec stats Hn) as (final & -> & _).
    by cbn [mbind outcome_bind].
  - intros w2 Hrun.
    apply run_simulation_emit_Ok in Hrun
      as (gen & w0 & f' & stats & w' & fin & Hgen & Hloop & Hfin & Hlog).
    pose proof Hloop as Hinv.
    apply (emit_loop_invariant inv (λ _, True) Hstep) in Hinv as [Hn _];
      [|done|apply counters_nonneg_empty|by apply Forall_true].
    destruct (final_emit_spec stats Hn) as (final' & Hfin' & [Hfpr Hfnr] & Hcnt).
    rewrite Hfin in Hfin'. injection Hfin' as Heq. subst final'.
    exists gen, w0, f', stats, w', fin. split; [done|]. split; [done|].
    split; [rewrite Hlog; apply last_snoc|]. split; [done|].
    by rewrite Hfpr, Hfnr, Hcnt.
Qed.

Lemma derived_rates_as_specified_witness :
  ∃ final w1 stats,
    run_simulation 50 (Lcg.world 1000) (1 # 5) 100 (1 # 4)
      demo_deny demo_sigs demo_policer_cfg (Some 7%Z) = Ok (final, w1) ∧
    (∀ k, get k (counters final) = get k stats) ∧
    (0 < get "legit_total" stats)%Z ∧
    false_positive_rate final
    = inject_Z (get "legit_dropped" stats) / inject_Z (get "legit_total" stats) ∧
    false_negative_rate final
    = rate_spec (get "mal_forwarded" stats) (get "mal_total" stats).
Proof.
  assert (¬ 100 == 0) as Hrate by (intros Heq; vm_compute in Heq; discriminate).
  destruct (derived_rates_as_specified 50 (Lcg.world 1000) (1 # 5) 100 (1 # 4)
              demo_deny demo_sigs demo_policer_cfg (1 # 200) (Some 7%Z) Hrate)
    as [[_ Hsim] _].
  destruct (is_Ok_inv (run_simulation 50 (Lcg.world 1000) (1 # 5) 100 (1 # 4)
                         demo_deny demo_sigs demo_policer_cfg (Some 7%Z)))
    as [[final w1] Esim]; [vm_compute; reflexivity|].
  destruct (Hsim final w1 Esim) as (gen & w0 & f' & stats & _ & _ & Hget & Hfpr & Hfnr).
  assert ((0 <? get "legit_total" (counters final))%Z = true) as Hpos.
  { assert (match run_simulation 50 (Lcg.world 1000) (1 # 5) 100 (1 # 4)
                    demo_deny demo_sigs demo_policer_cfg (Some 7%Z) with
            | Ok (f, _) => (0 <? get "legit_total" (counters f))%Z
            | _ => false
            end = true) as Hrun by (vm_compute; reflexivity).
    by rewrite Esim in Hrun. }
  rewrite Hget in Hpos.
  exists final, w1, stats. split; [exact Esim|]. split; [exact Hget|].
  split; [by apply Z.ltb_lt|]. split; [|exact Hfnr].
  rewrite Hfpr. unfold rate_spec. by rewrite Hpos.
Defined.

(** ** Malicious traffic only *)

Lemma any_signature_elem (sig text : string) (sigs : list string) :
  sig ∈ sigs → str_in sig text = true → any_signature sigs text = true.
Proof.
  intros Hin Hsig. induction sigs as [|s sigs IH]; [by apply elem_of_nil in Hin|].
  cbn [any_signature]. apply elem_of_cons in Hin as [<- | Hin].
  - by rewrite Hsig.
  - destruct (str_in s text); [done | by apply IH].
Qed.

Lemma process_rules (f : ATMFilter) (cell : ATMCell) (now : Q) :
  header_rule (process f cell now).2 = header_rule f ∧
  payload_rule (process f cell now).2 = payload_rule f.
Proof.
  unfold process. destruct (HeaderRule_check (header_rule f) cell); [done|].
  cbn zeta. destruct (policers f !! header cell) as [b|].
  - destruct (allow b now) as [[] b']; cbn [negb];
      [destruct (PayloadRule_check _ cell)|]; done.
  - destruct (PayloadRule_check _ cell); done.
Qed.

(** A cell that carries a configured signature is never forwarded. *)
Lemma process_signature_drop (f : ATMFilter) (cell : ATMCell) (now : Q) (sig : string) :
  sig ∈ signatures (payload_rule f) → str_in sig (payload cell) = true →
  (process f cell now).1 ∈
    [("drop", Some "header"); ("drop", Some "policer"); ("drop", Some "payload")].
Proof.
  intros Hin Hsig.
  assert (PayloadRule_check (payload_rule f) cell = true) as Hpay
    by (by apply (any_signature_elem sig)).
  unfold process. destruct (HeaderRule_check (header_rule f) cell); [set_solver|].
  cbn zeta. destruct (policers f !! header cell) as [b|].
  - destruct (allow b now) as [[] b']; cbn [negb payload_rule set_policers];
      rewrite ?Hpay; set_solver.
  - rewrite Hpay. set_solver.
Qed.

Lemma str_in_prefix (sig text : string) : String.prefix sig text = true → str_in sig text = true.
Proof. intros Hp. destruct text; cbn [str_in]; by rewrite Hp. Qed.

Lemma prefix_append (s1 s2 : string) : String.prefix s1 (s1 +:+ s2) = true.
Proof.
  induction s1 as [|a s1 IH]; [by destruct s2|].
  change (String a s1 +:+ s2) with (String a (s1 +:+ s2)).
  cbn [String.prefix]. by destruct (Ascii.ascii_dec a a).
Qed.

Section Malicious.
Context {G : Type} `{PRNG G}.

(** With a malicious fraction of 1.0 every generated cell is malicious and
    its payload starts with the signature. *)
Lemma gen_next_all_malicious (gen gen' : TrafficGen) (w w' : World G) (t : Q) (cell : ATMCell) :
  random_in_unit_interval → gen_malicious_fraction gen == 1 →
  gen_next gen w = Some ((t, cell), gen', w') →
  is_malicious cell = true ∧ str_in "BADSIG_" (payload cell) = true ∧
  gen_malicious_fraction gen' = gen_malicious_fraction gen.
Proof.
  intros Hunit Hfrac. unfold gen_next. destruct (Qltb _ _); [|done].
  destruct (rng_choice _ _) as [v1 g1], (rng_choice _ g1) as [v2 g2].
  pose proof (Hunit g2) as [_ Hlt].
  destruct (rng_random g2) as [x g3]. cbn [fst] in Hlt.
  destruct (Qltb_spec x (gen_malicious_fraction gen)) as [_|Hge]; [|lra].
  destruct (rng_randint _ _ g3) as [n g4]. cbn.
  intros [= _ <- <- _]. repeat split. apply str_in_prefix, prefix_append.
Qed.

(** The loop of [run_simulation] keeps an invariant of the generator, the
    filter and the counters together. *)
Lemma sim_loop_invariant_gen (I : TrafficGen → ATMFilter → Stats → Prop) :
  (∀ gen w t cell gen' w' f s now,
      I gen f s → gen_next gen w = Some ((t, cell), gen', w') →
      I gen' (count_cell f s cell now).1 (count_cell f s cell now).2) →
  ∀ fuel now_base gen (w : World G) f stats f' stats' w',
    I gen f stats → sim_loop fuel now_base gen w f stats = Ok (f', stats', w') →
    ∃ gen', I gen' f' stats'.
Proof.
  intros Hstep. induction fuel as [|fuel IH]; intros now_base gen w f stats f' stats' w' HI;
    cbn [sim_loop]; destruct (gen_next gen w) as [[[[t cell] gen1] w1]|] eqn:Hgen;
    try (intros [= <- <- <-]; by exists gen); try done.
  pose proof (Hstep _ _ _ _ _ _ f stats (now_base + t) HI Hgen) as HI'.
  destruct (count_cell f stats cell (now_base + t)) as [f1 stats1].
  by apply IH.
Qed.

Lemma count_cell_payload_rule (f : ATMFilter) (s : Stats) (cell : ATMCell) (now : Q) :
  payload_rule (count_cell f s cell now).1 = payload_rule f.
Proof.
  unfold count_cell. pose proof (process_rules f cell now) as [_ Hp].
  by destruct (process f cell now) as [[action reason] f'].
Qed.

(** A dropped cell leaves the two forwarding counters alone. *)
Lemma count_cell_dropped (f : ATMFilter) (s : Stats) (cell : ATMCell) (now : Q) :
  (process f cell now).1 ∈
    [("drop", Some "header"); ("drop", Some "policer"); ("drop", Some "payload")] →
  get "mal_forwarded" (count_cell f s cell now).2 = get "mal_forwarded" s ∧
  get "forwarded" (count_cell f s cell now).2 = get "forwarded" s.
Proof.
  intros Hv. unfold count_cell.
  destruct (process f cell now) as [[action reason] f']. cbn [fst] in Hv.
  repeat (apply elem_of_cons in Hv as [Hv | Hv]); [..|by apply elem_of_nil in Hv];
    injection Hv as -> ->; cbn [String.eqb Ascii.eqb Bool.eqb snd];
    repeat match goal with
           | |- context [dropped_key ?r] =>
               let key := eval vm_compute in (dropped_key r) in
               change (dropped_key r) with key
           end;
    destruct (is_malicious cell); get_incr; done.
Qed.

Lemma count_cell_malicious_total (f : ATMFilter) (s : Stats) (cell : ATMCell) (now : Q) :
  is_malicious cell = true →
  get "total" (count_cell f s cell now).2 = (get "total" s + 1)%Z ∧
  get "mal_total" (count_cell f s cell now).2 = (get "mal_total" s + 1)%Z.
Proof.
  intros Hmal. unfold count_cell. rewrite Hmal.
  pose proof (process_verdict f cell now) as Hv.
  destruct (process f cell now) as [[action reason] f']. cbn [fst] in Hv.
  repeat (apply elem_of_cons in Hv as [Hv | Hv]); [..|by apply elem_of_nil in Hv];
    injection Hv as -> ->; cbn [String.eqb Ascii.eqb Bool.eqb snd];
    repeat match goal with
           | |- context [dropped_key ?r] =>
               let key := eval vm_compute in (dropped_key r) in
               change (dropped_key r) with key
           end;
    get_incr; done.
Qed.

End Malicious.

(** The verdict on a cell that carries a configured signature: the header
    rule first, then the policer, and the payload rule for every cell that
    passed both. *)
Lemma process_signature_verdict (f : ATMFilter) (cell : ATMCell) (now : Q) (sig : string) :
  sig ∈ signatures (payload_rule f) → str_in sig (payload cell) = true →
  (process f cell now).1 =
    if HeaderRule_check (header_rule f) cell then ("drop", Some "header")
    else match policers f !! header cell with
         | Some b => if (allow b now).1 then ("drop", Some "payload")
                     else ("drop", Some "policer")
         | None => ("drop", Some "payload")
         end.
Proof.
  intros Hin Hsig.
  assert (PayloadRule_check (payload_rule f) cell = true) as Hpay
    by (by apply (any_signature_elem sig)).
  unfold process. destruct (HeaderRule_check (header_rule f) cell); [done|].
  cbn zeta. destruct (policers f !! header cell) as [b|].
  - destruct (allow b now) as [[] b']; cbn [negb fst payload_rule set_policers];
      by rewrite ?Hpay.
  - by rewrite Hpay.
Qed.

(** C6.  With a malicious fraction of 1.0 and "BADSIG_" among the
    signatures, every generated cell is malicious and carries the
    signature; the filter's verdict on such a cell is a drop for the header
    when its flow is denied, a drop for the policer when its flow's bucket
    refuses it, and a drop for the payload in every other case.  So the
    loop of the run counts only malicious cells and forwards none, and the
    run ends with mal_forwarded = 0 and a false negative rate of 0.0.
    [random.random()] is taken to return values below 1.0, as Python
    documents. *)
Theorem all_malicious_none_forwarded {G : Type} `{PRNG G}
    fuel (w : World G) duration rate mal_frac deny sigs cfg seed final w1 :
  random_in_unit_interval →
  mal_frac == 1 →
  "BADSIG_" ∈ signatures (PayloadRule_init sigs) →
  run_simulation fuel w duration rate mal_frac deny sigs cfg seed = Ok (final, w1) →
  (∀ gen gen' (w' w'' : World G) t cell,
      gen_malicious_fraction gen == 1 → gen_next gen w' = Some ((t, cell), gen', w'') →
      is_malicious cell = true ∧ str_in "BADSIG_" (payload cell) = true) ∧
  (∀ f cell now,
      "BADSIG_" ∈ signatures (payload_rule f) → str_in "BADSIG_" (payload cell) = true →
      (process f cell now).1 =
        if HeaderRule_check (header_rule f) cell then ("drop", Some "header")
        else match policers f !! header cell with
             | Some b => if (allow b now).1 then ("drop", Some "payload")
                         else ("drop", Some "policer")
             | None => ("drop", Some "payload")
             end) ∧
  (∃ gen w0 f' stats,
      generate_traffic duration rate mal_frac seed (time_time w).2 = Ok (gen, w0) ∧
      sim_loop fuel (time_time w).1 gen w0
        (ATMFilter_init (Some (HeaderRule_init deny)) (Some (PayloadRule_init sigs)) cfg) ∅
      = Ok (f', stats, w1) ∧
      (∀ k, get k (counters final) = get k stats) ∧
      get "mal_total" stats = get "total" stats ∧
      get "forwarded" stats = 0%Z ∧ get "mal_forwarded" stats = 0%Z) ∧
  get "mal_forwarded" (counters final) = 0%Z ∧
  false_negative_rate final == 0.
Proof.
  intros Hunit Hfrac Hsig Hrun.
  split; [|split].
  - intros gen gen' w' w'' t cell Hg Hnext.
    by destruct (gen_next_all_malicious gen gen' w' w'' t cell Hunit Hg Hnext) as (? & ? & _).
  - intros f cell now. apply process_signature_verdict.
  - apply run_simulation_Ok in Hrun as (gen & w0 & f' & stats & Hgen & Hloop & Hfin).
    assert (gen_malicious_fraction gen == 1) as Hg.
    { unfold generate_traffic in Hgen.
      destruct (float_div 1 rate); cbn [mbind outcome_bind] in Hgen; try done.
      by injection Hgen as <- _. }
    pose proof Hloop as Hinv.
    apply (sim_loop_invariant_gen
             (λ gen f s, gen_malicious_fraction gen == 1 ∧
                         "BADSIG_" ∈ signatures (payload_rule f) ∧
                         counters_nonneg s ∧
                         get "mal_total" s = get "total" s ∧
                         get "forwarded" s = 0%Z ∧
                         get "mal_forwarded" s = 0%Z)) in Hinv
      as (gen' & _ & _ & Hn & Hall & Hfw & Hmf).
    + destruct (derive_metrics_spec stats Hn) as (final' & Hfin' & [_ Hfnr] & Hget).
      rewrite Hfin in Hfin'. injection Hfin' as <-.
      split; [by exists gen, w0, f', stats|].
      rewrite Hget. split; [done|].
      rewrite Hfnr, !Hget, Hmf. unfold rate_spec.
      destruct (0 <? get "mal_total" stats)%Z; [|reflexivity].
      unfold Qdiv. apply Qmult_0_l.
    + intros g0 w' t cell g1 w'' f s now (Hg0 & Hs & Hn0 & Hall0 & Hfw0 & Hmf0) Hnext.
      destruct (gen_next_all_malicious g0 g1 w' w'' t cell Hunit Hg0 Hnext)
        as (Hmal & Hpay & Hsame).
      rewrite Hsame, count_cell_payload_rule.
      split; [done|]. split; [done|]. split; [by apply count_cell_nonneg|].
      destruct (count_cell_malicious_total f s cell now Hmal) as [-> ->].
      destruct (count_cell_dropped f s cell now) as [-> ->];
        [by apply (process_signature_drop f cell now "BADSIG_")|].
      split; [lia|done].
    + split; [done|]. split; [done|]. split; [apply counters_nonneg_empty|].
      by rewrite !get_empty.
Qed.

Lemma Lcg_random_in_unit_interval : @random_in_unit_interval Z Lcg.prng.
Proof.
  intros g. cbn [rng_random Lcg.prng Lcg.random fst].
  pose proof (Z.mod_pos_bound (g / 65536) 1000 eq_refl) as [Hlo Hhi].
  unfold Qle, Qlt. cbn [Qnum Qden]. lia.
Qed.

Lemma all_malicious_none_forwarded_witness :
  ∃ final w1,
    run_simulation 50 (Lcg.world 1000) (1 # 5) 100 1
      demo_deny demo_sigs demo_policer_cfg (Some 3%Z) = Ok (final, w1) ∧
    get "mal_forwarded" (counters final) = 0%Z ∧ false_negative_rate final == 0.
Proof.
  destruct (is_Ok_inv (run_simulation 50 (Lcg.world 1000) (1 # 5) 100 1
                         demo_deny demo_sigs demo_policer_cfg (Some 3%Z)))
    as [[final w1] Hsim]; [vm_compute; reflexivity|].
  exists final, w1. split; [exact Hsim|].
  assert ("BADSIG_" ∈ signatures (PayloadRule_init demo_sigs)) as Hsig
    by apply list_elem_of_here.
  assert (1 == 1) as Hfrac by reflexivity.
  exact (proj2 (proj2 (proj2
    (all_malicious_none_forwarded 50 (Lcg.world 1000) (1 # 5) 100 1
       demo_deny demo_sigs demo_policer_cfg (Some 3%Z) final w1
       Lcg_random_in_unit_interval Hfrac Hsig Hsim)))).
Defined.

(** ** Independence of the wall clock *)

Lemma refill_proper (c t1 t2 e1 e2 r : Q) :
  t1 == t2 → e1 == e2 → py_min c (t1 + e1 * r) == py_min c (t2 + e2 * r).
Proof.
  intros Ht He.
  assert (t1 + e1 * r == t2 + e2 * r) as Hx by (by rewrite Ht, He).
  revert Hx. generalize (t1 + e1 * r) (t2 + e2 * r). intros x1 x2 Hx.
  unfold py_min. destruct (Qltb_spec x1 c), (Qltb_spec x2 c); lra.
Qed.

(** [allow] answers the same on both clocks and keeps the buckets related. *)
Lemma allow_shift (d now1 now2 : Q) (b1 b2 : TokenBucket) :
  bucket_shift d b1 b2 → now2 == now1 + d →
  (allow b1 now1).1 = (allow b2 now2).1 ∧
  bucket_shift d (allow b1 now1).2 (allow b2 now2).2.
Proof.
  destruct b1 as [r1 c1 t1 l1], b2 as [r2 c2 t2 l2].
  unfold bucket_shift at 1. cbn [rate capacity tokens last_time].
  intros (-> & -> & Ht & Hl) Hnow. unfold allow, bucket_shift.
  destruct l1 as [l1|], l2 as [l2|]; try done;
    cbn [set_last_time set_tokens rate capacity tokens last_time].
  - pose proof (refill_proper c2 t1 t2 (now1 - l1) (now2 - l2) r2 Ht ltac:(lra)) as Hx.
    revert Hx.
    generalize (py_min c2 (t1 + (now1 - l1) * r2)) (py_min c2 (t2 + (now2 - l2) * r2)).
    intros x1 x2 Hx.
    destruct (Qltb_spec 0 (now1 - l1)), (Qltb_spec 0 (now2 - l2)); try lra;
      cbn [set_last_time set_tokens rate capacity tokens last_time].
    + destruct (Qleb_spec 1 x1), (Qleb_spec 1 x2); try lra;
        cbn [fst snd set_last_time set_tokens rate capacity tokens last_time];
        repeat split; try done; lra.
    + destruct (Qleb_spec 1 t1), (Qleb_spec 1 t2); try lra;
        cbn [fst snd set_last_time set_tokens rate capacity tokens last_time];
        repeat split; try done; lra.
  - destruct (Qltb_spec 0 (now1 - now1)), (Qltb_spec 0 (now2 - now2)); try lra;
      cbn [set_last_time set_tokens rate capacity tokens last_time].
    destruct (Qleb_spec 1 t1), (Qleb_spec 1 t2); try lra;
      cbn [fst snd set_last_time set_tokens rate capacity tokens last_time];
      repeat split; try done; lra.
Qed.

Lemma process_shift (d now1 now2 : Q) (f1 f2 : ATMFilter) (c1 c2 : ATMCell) :
  filter_shift d f1 f2 → same_cell c1 c2 → now2 == now1 + d →
  (process f1 c1 now1).1 = (process f2 c2 now2).1 ∧
  filter_shift d (process f1 c1 now1).2 (process f2 c2 now2).2.
Proof.
  destruct f1 as [h p pol1], f2 as [h2 p2 pol2].
  unfold filter_shift at 1. cbn [header_rule payload_rule policers].
  intros (<- & <- & Hb) (Hvpi & Hvci & Hpay & _) Hnow.
  assert (header c2 = header c1) as Hkey by (unfold header; congruence).
  unfold process, HeaderRule_check, PayloadRule_check.
  cbn [header_rule payload_rule policers set_policers]. rewrite Hkey, <- Hpay.
  destruct (bool_decide (header c1 ∈ deny_list h)); [done|].
  pose proof (Hb (header c1)) as Hk.
  destruct Hk as [b1 b2 Hrel|].
  - destruct (allow_shift d now1 now2 b1 b2 Hrel Hnow) as [Hres Hrel'].
    destruct (allow b1 now1) as [r1 b1'], (allow b2 now2) as [r2 b2'].
    cbn [fst snd] in Hres, Hrel'. subst r2.
    assert (filter_shift d (mkFilter h p (<[header c1 := b1']> pol1))
              (mkFilter h p (<[header c1 := b2']> pol2))) as Hf.
    { split; [done|]. split; [done|]. intros k. cbn [policers].
      destruct (decide (header c1 = k)) as [<-|Hne].
      - rewrite !lookup_insert_eq. by constructor.
      - rewrite !lookup_insert_ne by done. apply Hb. }
    destruct r1; cbn [negb payload_rule header_rule policers set_policers]; [|done].
    by destruct (any_signature (signatures p) (payload c1)).
  - cbn [payload_rule].
    by destruct (any_signature (signatures p) (payload c1)).
Qed.

Section Determinism.
Context {G : Type} `{PRNG G}.

Lemma count_cell_shift (d now1 now2 : Q) (f1 f2 : ATMFilter) (s : Stats) (c1 c2 : ATMCell) :
  filter_shift d f1 f2 → same_cell c1 c2 → now2 == now1 + d →
  filter_shift d (count_cell f1 s c1 now1).1 (count_cell f2 s c2 now2).1 ∧
  (count_cell f1 s c1 now1).2 = (count_cell f2 s c2 now2).2.
Proof.
  intros Hf Hc Hnow. destruct (process_shift d now1 now2 f1 f2 c1 c2 Hf Hc Hnow) as [Hv Hf'].
  destruct Hc as (_ & _ & _ & Hmal). unfold count_cell. rewrite <- Hmal.
  destruct (process f1 c1 now1) as [[a1 r1] f1'], (process f2 c2 now2) as [[a2 r2] f2'].
  cbn [fst snd] in Hv, Hf'. injection Hv as <- <-. done.
Qed.

(** The generator draws the same cells whatever the clock shows: only the
    timestamps stamped on them differ. *)
Lemma gen_next_shift (gen : TrafficGen) (w1 w2 : World G) :
  rng w1 = rng w2 →
  match gen_next gen w1, gen_next gen w2 with
  | None, None => True
  | Some ((t1, c1), g1, w1'), Some ((t2, c2), g2, w2') =>
      t1 = t2 ∧ same_cell c1 c2 ∧ g1 = g2 ∧ rng w1' = rng w2'
  | _, _ => False
  end.
Proof.
  intros Hrng. unfold gen_next. rewrite <- Hrng. destruct (Qltb _ _); [|done].
  destruct (rng_choice _ _) as [v1 g1], (rng_choice _ g1) as [v2 g2],
    (rng_random g2) as [x g3].
  destruct (Qltb x _); [destruct (rng_randint _ _ g3) as [n g4]|]; cbn; done.
Qed.

Lemma sim_loop_shift (d base1 base2 : Q) :
  base2 == base1 + d →
  ∀ fuel1 fuel2 gen (w1 w2 : World G) f1 f2 stats f1' f2' s1 s2 w1' w2',
    rng w1 = rng w2 → filter_shift d f1 f2 →
    sim_loop fuel1 base1 gen w1 f1 stats = Ok (f1', s1, w1') →
    sim_loop fuel2 base2 gen w2 f2 stats = Ok (f2', s2, w2') →
    s1 = s2.
Proof.
  intros Hbase. induction fuel1 as [|fuel1 IH];
    intros fuel2 gen w1 w2 f1 f2 stats f1' f2' s1 s2 w1' w2' Hrng Hf;
    pose proof (gen_next_shift gen w1 w2 Hrng) as Hgen;
    destruct fuel2 as [|fuel2]; cbn [sim_loop];
    destruct (gen_next gen w1) as [[[[t1 c1] g1] w1n]|],
             (gen_next gen w2) as [[[[t2 c2] g2] w2n]|]; try done;
    try (intros [= _ <- _] [= _ <- _]; done).
  destruct Hgen as (<- & Hc & <- & Hrng').
  assert (base2 + t1 == base1 + t1 + d) as Hnow by lra.
  destruct (count_cell_shift d (base1 + t1) (base2 + t1) f1 f2 stats c1 c2 Hf Hc Hnow)
    as [Hf' Hs].
  destruct (count_cell f1 stats c1 (base1 + t1)) as [f1n s1n],
           (count_cell f2 stats c2 (base2 + t1)) as [f2n s2n].
  cbn [fst snd] in Hf', Hs. subst s2n.
  by apply IH.
Qed.

(** Fresh filters built from the same configuration are related for every
    clock difference: no bucket has been used yet. *)
Lemma ATMFilter_init_shift (d : Q) hr pr cfg :
  filter_shift d (ATMFilter_init hr pr cfg) (ATMFilter_init hr pr cfg).
Proof.
  split; [done|]. split; [done|]. intros k. cbn [policers ATMFilter_init].
  rewrite lookup_fmap. destruct (default ∅ cfg !! k) as [[r b]|]; constructor.
  repeat split; done.
Qed.

End Determinism.

(** In exact arithmetic the wall clock cancels out: two runs of
    [run_simulation] that both return, with the same duration, rate,
    malicious fraction, filter configuration and seed, end with the same
    counters and the same two rates, whatever the wall clocks, the earlier
    state of the random module and the step budgets of the two runs are.
    On binary64 floats this fails: there the rounding of
    [now_base + t_offset] depends on the base. *)
Theorem run_simulation_deterministic {G : Type} `{PRNG G}
    fuel1 fuel2 (w1 w2 : World G) duration rate mal_frac deny sigs cfg (seed : Z)
    final1 final2 w1' w2' :
  run_simulation fuel1 w1 duration rate mal_frac deny sigs cfg (Some seed) = Ok (final1, w1') →
  run_simulation fuel2 w2 duration rate mal_frac deny sigs cfg (Some seed) = Ok (final2, w2') →
  final1 = final2.
Proof.
  intros Hrun1 Hrun2.
  apply run_simulation_Ok in Hrun1 as (gen1 & w01 & f1' & s1 & Hgen1 & Hloop1 & Hfin1).
  apply run_simulation_Ok in Hrun2 as (gen2 & w02 & f2' & s2 & Hgen2 & Hloop2 & Hfin2).
  unfold generate_traffic in Hgen1, Hgen2.
  destruct (float_div 1 rate) as [dt| |]; cbn [mbind outcome_bind] in Hgen1, Hgen2; try done.
  injection Hgen1 as <- <-. injection Hgen2 as <- <-.
  assert (s1 = s2) as ->.
  { assert ((time_time w2).1 == (time_time w1).1 + ((time_time w2).1 - (time_time w1).1))
      as Hbase by lra.
    eapply (sim_loop_shift _ _ _ Hbase); [| |exact Hloop1|exact Hloop2].
    - reflexivity.
    - apply ATMFilter_init_shift. }
  rewrite Hfin1 in Hfin2. by injection Hfin2.
Qed.

Lemma run_simulation_deterministic_witness :
  ∃ final w1' w2',
    run_simulation 50 (Lcg.world 1000) (1 # 5) 100 (1 # 4)
      demo_deny demo_sigs demo_policer_cfg (Some 7%Z) = Ok (final, w1') ∧
    run_simulation 60 (mkWorld 99%Z (Lcg.clock_from (1700000000 + 1 # 3)) 5 [])
      (1 # 5) 100 (1 # 4) demo_deny demo_sigs demo_policer_cfg (Some 7%Z) = Ok (final, w2').
Proof.
  destruct (is_Ok_inv (run_simulation 50 (Lcg.world 1000) (1 # 5) 100 (1 # 4)
                         demo_deny demo_sigs demo_policer_cfg (Some 7%Z)))
    as [[final1 w1'] Hrun1]; [vm_compute; reflexivity|].
  destruct (is_Ok_inv (run_simulation 60
                         (mkWorld 99%Z (Lcg.clock_from (1700000000 + 1 # 3)) 5 [])
                         (1 # 5) 100 (1 # 4) demo_deny demo_sigs demo_policer_cfg (Some 7%Z)))
    as [[final2 w2'] Hrun2]; [vm_compute; reflexivity|].
  exists final1, w1', w2'. split; [exact Hrun1|].
  rewrite (run_simulation_deterministic 50 60 (Lcg.world 1000)
             (mkWorld 99%Z (Lcg.clock_from (1700000000 + 1 # 3)) 5 [])
             (1 # 5) 100 (1 # 4) demo_deny demo_sigs demo_policer_cfg 7%Z
             final1 final2 w1' w2' Hrun1 Hrun2).
  exact Hrun2.
Defined.

(** C4.  On binary64 floats the final counters depend on the wall clock.
    [run_simulation] with duration 0.2, rate 10, malicious fraction 0, one
    policer (10 tokens per second, burst 1) on flow (2, 10) and seed 10
    generates two cells, both on that flow, 0.1 apart.  Started when the
    clock reads 1000.0 it forwards both: [(1000.0 + 0.1) - 1000.0] is
    0.10000000000002274 and refills a whole token.  Started when the clock
    reads 1700000000.0 it drops the second for the policer: the same
    difference is 0.099999904632568359 and refills less than one.  The
    lists are total, forwarded, dropped and dropped_policer. *)
Theorem run_simulation_counters_depend_on_clock :
  counters_of
    (run_simulation64 5 (Recorded.world 1000) (1 / 5) 10 0 None None one_policer_cfg
       (Some 10%Z))
    ["total"; "forwarded"; "dropped"; "dropped_policer"]
  = Some [2; 2; 0; 0]%Z ∧
  counters_of
    (run_simulation64 5 (Recorded.world 1700000000) (1 / 5) 10 0 None None one_policer_cfg
       (Some 10%Z))
    ["total"; "forwarded"; "dropped"; "dropped_policer"]
  = Some [2; 1; 1; 1]%Z.
Proof. split; vm_compute; reflexivity. Qed.

(** ** Runs return *)

Section Termination.
Context {G : Type} `{PRNG G}.

Lemma gen_next_None (gen : TrafficGen) (w : World G) :
  gen_duration_sec gen <= gen_t gen → gen_next gen w = None.
Proof.
  intros Hend. unfold gen_next.
  destruct (Qltb_spec (gen_t gen) (gen_duration_sec gen)); [lra | done].
Qed.

Lemma gen_next_Some (gen gen' : TrafficGen) (w w' : World G) (x : Q * ATMCell) :
  gen_next gen w = Some (x, gen', w') →
  gen' = mkGen (gen_t gen + gen_dt gen) (gen_dt gen) (gen_duration_sec gen)
           (gen_malicious_fraction gen).
Proof.
  unfold gen_next. destruct (Qltb _ _); [|done].
  destruct (rng_choice _ _) as [v1 g1], (rng_choice _ g1) as [v2 g2],
    (rng_random g2) as [x3 g3].
  destruct (Qltb x3 _); [destruct (rng_randint _ _ g3) as [n g4]|];
    cbn; intros [= _ <- _]; done.
Qed.

(** A step budget of at least (duration - t) / dt turns is enough for the
    loop to run to its end. *)
Lemma sim_loop_returns fuel now_base gen (w : World G) f stats :
  0 < gen_dt gen →
  gen_duration_sec gen - gen_t gen <= inject_Z (Z.of_nat fuel) * gen_dt gen →
  is_Ok (sim_loop fuel now_base gen w f stats) = true.
Proof.
  revert gen w f stats. induction fuel as [|fuel IH]; intros gen w f stats Hdt Hfuel.
  - cbn [sim_loop]. rewrite gen_next_None; [done|].
    change (inject_Z (Z.of_nat 0)) with 0 in Hfuel. lra.
  - cbn [sim_loop]. destruct (gen_next gen w) as [[[[t cell] gen1] w1]|] eqn:Hgen; [|done].
    apply gen_next_Some in Hgen. subst gen1.
    destruct (count_cell f stats cell (now_base + t)) as [f1 stats1].
    apply IH; cbn [gen_t gen_dt gen_duration_sec]; [done|].
    rewrite inject_Z_succ_nat in Hfuel. lra.
Qed.

(** For a positive rate, [run_simulation] returns a result once the step
    budget covers the [duration * rate] cells of the run. *)
Lemma run_simulation_returns (w : World G) duration rate mal_frac deny sigs cfg seed fuel :
  0 < rate →
  duration * rate <= inject_Z (Z.of_nat fuel) →
  is_Ok (run_simulation fuel w duration rate mal_frac deny sigs cfg seed) = true.
Proof.
  intros Hrate Hfuel. unfold run_simulation, generate_traffic, float_div.
  destruct (Qeq_bool rate 0) eqn:E; [apply Qeq_bool_iff in E; lra|].
  cbn [time_time mbind outcome_bind].
  assert (0 < 1 / rate) as Hdt.
  { unfold Qdiv. rewrite Qmult_1_l. by apply Qinv_lt_0_compat. }
  match goal with
  | |- context [sim_loop fuel ?b ?g ?w0 ?f ?s] =>
      pose proof (sim_loop_returns fuel b g w0 f s Hdt) as Hret;
      destruct (sim_loop fuel b g w0 f s) as [[[f' stats] w']| |] eqn:Hloop
  end.
  - cbn [mbind outcome_bind].
    apply (sim_loop_invariant (λ s, counters_nonneg s)) in Hloop;
      [|intros; by apply count_cell_nonneg|apply counters_nonneg_empty].
    destruct (derive_metrics_spec stats Hloop) as (final & -> & _). done.
  - by apply sim_loop_no_raise in Hloop.
  - cbn [gen_t gen_dt gen_duration_sec is_Ok] in Hret. apply Hret.
    assert (inject_Z (Z.of_nat fuel) * (1 / rate) == inject_Z (Z.of_nat fuel) / rate) as ->
      by (field; lra).
    apply Qle_shift_div_l; [done|]. lra.
Qed.

End Termination.

(** ** One simulation at a time *)

Lemma server_inv_init : server_inv server_init.
Proof.
  unfold server_inv, server_init. cbn [threads handlers sim_thread sim_lock].
  repeat split; intros *; rewrite ?lookup_empty; done.
Qed.

(** An invocation in the critical section is the only one there. *)
Lemma server_inv_exclusive (s : Server) (h h' : nat) (pc pc' : Pc) :
  server_inv s → handlers s !! h = Some pc → handlers s !! h' = Some pc' →
  in_critical_section pc = true → in_critical_section pc' = true → h = h'.
Proof.
  intros (_ & Hlock & _) Hh Hh' Hpc Hpc'.
  pose proof (Hlock h pc Hh Hpc) as H1. pose proof (Hlock h' pc' Hh' Hpc') as H2.
  congruence.
Qed.

(** Moving invocation [h] to a statement other than the two around the
    thread's creation keeps the two clauses about them. *)
Lemma set_pc_create_start (h : nat) (pc : Pc) (s : Server) (P : Prop) (Q : Prop) :
  pc ≠ AtCreate → pc ≠ AtStart →
  (∀ h', handlers s !! h' = Some AtCreate → P) →
  (∀ h', handlers s !! h' = Some AtStart → Q) →
  (∀ h', <[h := pc]> (handlers s) !! h' = Some AtCreate → P) ∧
  (∀ h', <[h := pc]> (handlers s) !! h' = Some AtStart → Q).
Proof.
  intros Hc Hs HP HQ.
  split; intros h'; rewrite lookup_insert; case_decide; try congruence; [apply HP | apply HQ].
Qed.

(** Invocation [h], which holds the lock, moves on inside the block or
    leaves it: whoever is inside afterwards still holds the lock. *)
Lemma set_pc_lock (h : nat) (pc pc0 : Pc) (s : Server) (l : option nat) :
  server_inv s → handlers s !! h = Some pc0 → in_critical_section pc0 = true →
  (in_critical_section pc = true → l = Some h) →
  ∀ h' pc', <[h := pc]> (handlers s) !! h' = Some pc' →
            in_critical_section pc' = true → l = Some h'.
Proof.
  intros Hinv Hh Hin Hl h' pc'. rewrite lookup_insert. case_decide.
  - intros [= <-]. subst h'. apply Hl.
  - intros Hh' Hin'. by destruct (server_inv_exclusive s h h' pc0 pc' Hinv Hh Hh' Hin Hin').
Qed.

Lemma handle_start_sim_inv (h : nat) (s s' : Server) :
  server_inv s → handle_start_sim h s = Some s' → server_inv s'.
Proof.
  intros Hinv Hstep. pose proof Hinv as (Hrun & Hlock & Hcreate & Hstart).
  unfold handle_start_sim in Hstep.
  destruct (handlers s !! h) as [pc|] eqn:Hpc; [|done].
  destruct pc; try done.
  - (* with sim_lock: *)
    destruct (sim_lock s) as [|] eqn:Hfree; [done|]. injection Hstep as <-.
    unfold server_inv, set_pc. cbn [threads handlers sim_thread sim_lock].
    split; [done|]. split; [|by apply set_pc_create_start].
    intros h' pc'. rewrite lookup_insert. case_decide; [by intros; subst|].
    intros Hh' Hin. pose proof (Hlock h' pc' Hh' Hin). congruence.
  - (* if sim_thread and sim_thread.is_alive(): *)
    pose proof (Hlock h AtCheck Hpc eq_refl) as Hheld.
    destruct (sim_thread_alive s) eqn:Halive; injection Hstep as <-;
      unfold server_inv, set_pc; cbn [threads handlers sim_thread sim_lock].
    + split; [done|]. split; [|by apply set_pc_create_start].
      by apply (set_pc_lock h AtEmitError AtCheck s).
    + split; [done|]. split; [by apply (set_pc_lock h AtCreate AtCheck s)|].
      assert (∀ t, threads s !! t ≠ Some Running) as Hnone.
      { intros t Ht. pose proof (Hrun t Ht) as Hcur.
        unfold sim_thread_alive in Halive. rewrite Hcur in Halive.
        by rewrite bool_decide_eq_true_2 in Halive. }
      split; intros h'; rewrite lookup_insert; case_decide.
      * intros _. apply Hnone.
      * apply Hcreate.
      * done.
      * apply Hstart.
  - (* emit('sim_error', ...) *)
    pose proof (Hlock h AtEmitError Hpc eq_refl) as Hheld. injection Hstep as <-.
    unfold server_inv, set_pc; cbn [threads handlers sim_thread sim_lock].
    split; [done|]. split; [|by apply set_pc_create_start].
    by apply (set_pc_lock h AtRelease AtEmitError s).
  - (* sim_thread = threading.Thread(...) *)
    pose proof (Hlock h AtCreate Hpc eq_refl) as Hheld. injection Hstep as <-.
    pose proof (is_fresh (dom (threads s))) as Hfresh.
    apply not_elem_of_dom in Hfresh.
    set (t := fresh (dom (threads s))) in *.
    assert (∀ t', <[t := Created]> (threads s) !! t' ≠ Some Running) as Hnone.
    { intros t'. rewrite lookup_insert. case_decide; [done|]. by apply (Hcreate h). }
    unfold server_inv, set_pc; cbn [threads handlers sim_thread sim_lock].
    split; [intros t' Ht'; by apply Hnone in Ht'|].
    split; [by apply (set_pc_lock h AtStart AtCreate s)|].
    split; [done|]. intros h' _. split; [|done].
    exists t. by rewrite lookup_insert_eq.
  - (* sim_thread.start() *)
    pose proof (Hlock h AtStart Hpc eq_refl) as Hheld.
    destruct (Hstart h Hpc) as [(t & Hcur & Ht) Hnone].
    rewrite Hcur in Hstep. injection Hstep as <-.
    unfold server_inv, set_pc; cbn [threads handlers sim_thread sim_lock].
    split.
    { intros t'. rewrite lookup_insert. case_decide; [by intros; subst|].
      intros Ht'. by apply Hnone in Ht'. }
    split; [by apply (set_pc_lock h AtEmitStarted AtStart s)|].
    split; intros h'; rewrite lookup_insert; case_decide; try done; intros Hh'.
    + by destruct (server_inv_exclusive s h h' AtStart AtCreate Hinv Hpc Hh' eq_refl eq_refl).
    + by destruct (server_inv_exclusive s h h' AtStart AtStart Hinv Hpc Hh' eq_refl eq_refl).
  - (* emit('sim_started', ...) *)
    pose proof (Hlock h AtEmitStarted Hpc eq_refl) as Hheld. injection Hstep as <-.
    unfold server_inv, set_pc; cbn [threads handlers sim_thread sim_lock].
    split; [done|]. split; [|by apply set_pc_create_start].
    by apply (set_pc_lock h AtRelease AtEmitStarted s).
  - (* end of the with block *)
    injection Hstep as <-.
    unfold server_inv, set_pc; cbn [threads handlers sim_thread sim_lock].
    split; [done|]. split; [|by apply set_pc_create_start].
    by apply (set_pc_lock h Returned AtRelease s).
Qed.

Lemma server_step_inv (a : Action) (s s' : Server) :
  server_inv s → server_step a s = Some s' → server_inv s'.
Proof.
  intros Hinv Hstep. destruct a as [h|h|t]; cbn [server_step] in Hstep.
  - destruct (handlers s !! h) eqn:Hnew; [done|]. injection Hstep as <-.
    destruct Hinv as (Hrun & Hlock & Hcreate & Hstart).
    unfold server_inv, set_pc. cbn [threads handlers sim_thread sim_lock].
    split; [done|]. split; [|split].
    + intros h' pc'. rewrite lookup_insert. case_decide; [by intros [= <-]|]. apply Hlock.
    + intros h'. rewrite lookup_insert. case_decide; [done|]. apply Hcreate.
    + intros h'. rewrite lookup_insert. case_decide; [done|]. apply Hstart.
  - by apply (handle_start_sim_inv h s).
  - destruct (threads s !! t) as [[]|] eqn:Ht; try done. injection Hstep as <-.
    destruct Hinv as (Hrun & Hlock & Hcreate & Hstart).
    assert (∀ t', <[t := Finished]> (threads s) !! t' = Some Running →
                  threads s !! t' = Some Running) as Hless.
    { intros t'. rewrite lookup_insert. by case_decide. }
    unfold server_inv. cbn [threads handlers sim_thread sim_lock].
    split; [|split; [done|split]].
    + intros t' Ht'. by apply Hrun, Hless.
    + intros h Hh t' Ht'. by apply (Hcreate h Hh t'), Hless.
    + intros h Hh. destruct (Hstart h Hh) as [(t0 & Hcur & Ht0) Hnone]. split.
      * exists t0. split; [done|]. rewrite lookup_insert_ne; [done|]. congruence.
      * intros t' Ht'. by apply (Hnone t'), Hless.
Qed.

Lemma server_run_inv (acts : list Action) (s s' : Server) :
  server_inv s → server_run acts s = Some s' → server_inv s'.
Proof.
  revert s. induction acts as [|a acts IH]; intros s Hinv; cbn [server_run].
  - by intros [= <-].
  - destruct (server_step a s) as [s1|] eqn:Hstep; [|done]. cbn.
    apply IH. by apply (server_step_inv a s).
Qed.

(** C9.  In every state the server can reach: at most one simulation
    thread is running; at most one invocation of [handle_start_sim] is
    inside the locked block; and an invocation whose check finds the
    simulation running goes on, in three statements of its own and without
    waiting for anything, to send [sim_error] and return, leaving the
    running thread and [sim_thread] as they were. *)
Theorem one_simulation_at_a_time (acts : list Action) (s : Server) :
  server_run acts server_init = Some s →
  (∀ t1 t2, threads s !! t1 = Some Running → threads s !! t2 = Some Running → t1 = t2) ∧
  (∀ h1 h2 pc1 pc2,
      handlers s !! h1 = Some pc1 → handlers s !! h2 = Some pc2 →
      in_critical_section pc1 = true → in_critical_section pc2 = true → h1 = h2) ∧
  (∀ h, handlers s !! h = Some AtCheck → sim_thread_alive s = true →
        ∃ s1 s2 s3,
          handle_start_sim h s = Some s1 ∧ handle_start_sim h s1 = Some s2 ∧
          handle_start_sim h s2 = Some s3 ∧
          handlers s3 !! h = Some Returned ∧
          sent s3 = sent s ++ [(h, "sim_error")] ∧
          threads s3 = threads s ∧ sim_thread s3 = sim_thread s).
Proof.
  intros Hrun. pose proof (server_run_inv acts server_init s server_inv_init Hrun) as Hinv.
  split; [|split].
  - intros t1 t2 H1 H2. destruct Hinv as (Hcur & _).
    pose proof (Hcur t1 H1). pose proof (Hcur t2 H2). congruence.
  - intros h1 h2 pc1 pc2 H1 H2 Hin1 Hin2. by apply (server_inv_exclusive s h1 h2 pc1 pc2).
  - intros h Hh Halive.
    eexists _, _, _. unfold handle_start_sim at 1. rewrite Hh, Halive.
    split; [reflexivity|].
    unfold handle_start_sim at 1. cbn [set_pc handlers]. rewrite lookup_insert_eq.
    split; [reflexivity|].
    unfold handle_start_sim at 1. cbn [set_pc handlers]. rewrite lookup_insert_eq.
    split; [reflexivity|].
    cbn [set_pc handlers sent threads sim_thread]. by rewrite lookup_insert_eq.
Qed.

Lemma option_is_Some_inv {A : Type} (o : option A) :
  match o with Some _ => true | None => false end = true → ∃ a, o = Some a.
Proof. destruct o as [a|]; [by exists a | done]. Qed.

Lemma one_simulation_at_a_time_witness :
  ∃ s s3,
    server_run [Arrive 0; Step 0; Step 0; Step 0; Step 0; Arrive 1; Step 0; Step 0;
                Step 1]%nat server_init = Some s ∧
    handlers s !! 1%nat = Some AtCheck ∧ sim_thread_alive s = true ∧
    server_run [Step 1; Step 1; Step 1]%nat s = Some s3 ∧
    sent s3 = [(0%nat, "sim_started"); (1%nat, "sim_error")] ∧
    threads s3 = threads s.
Proof.
  destruct (option_is_Some_inv
              (server_run [Arrive 0; Step 0; Step 0; Step 0; Step 0; Arrive 1; Step 0; Step 0;
                           Step 1]%nat server_init))
    as [s Hrun]; [vm_compute; reflexivity|].
  destruct (one_simulation_at_a_time _ s Hrun) as (_ & _ & Hreject).
  assert (Some s = Some s) as Hs by reflexivity.
  rewrite <- Hrun in Hs at 1. vm_compute in Hs. injection Hs as Hs.
  assert (handlers s !! 1%nat = Some AtCheck) as Hpc by (rewrite <- Hs; vm_compute; reflexivity).
  assert (sim_thread_alive s = true) as Halive by (rewrite <- Hs; vm_compute; reflexivity).
  destruct (Hreject 1%nat Hpc Halive) as (s1 & s2 & s3 & H1 & H2 & H3 & _ & Hsent & Hthr & _).
  exists s, s3. split; [exact Hrun|]. split; [exact Hpc|]. split; [exact Halive|].
  split; [cbn [server_run server_step]; rewrite H1; cbn; rewrite H2; cbn; by rewrite H3|].
  split; [|exact Hthr].
  rewrite Hsent, <- Hs. reflexivity.
Defined.

(** * Further properties of the code *)

(** ** The payload rule *)

Lemma append_cons (a : Ascii.ascii) (s1 s2 : string) :
  String a s1 +:+ s2 = String a (s1 +:+ s2).
Proof. reflexivity. Qed.

Lemma prefix_iff (s1 s2 : string) :
  String.prefix s1 s2 = true ↔ ∃ post, s2 = s1 +:+ post.
Proof.
  split.
  - revert s2. induction s1 as [|a s1 IH]; intros s2 Hp; [by exists s2|].
    destruct s2 as [|b s2]; [done|]. cbn [String.prefix] in Hp.
    destruct (Ascii.ascii_dec a b) as [->|]; [|done].
    destruct (IH s2 Hp) as [post ->]. by exists post.
  - intros [post ->]. apply prefix_append.
Qed.

(** Python's [sig in text] as modelled by [str_in]: [sig] occurs in [text]
    as a contiguous, case-sensitive substring. *)
Lemma str_in_iff (sig text : string) :
  str_in sig text = true ↔ ∃ pre post, text = pre +:+ sig +:+ post.
Proof.
  split.
  - induction text as [|a text IH]; cbn [str_in]; intros Hin;
      apply orb_true_iff in Hin as [Hp | Hrest]; try done.
    + apply prefix_iff in Hp as [post Hp]. by exists "", post.
    + apply prefix_iff in Hp as [post Hp]. by exists "", post.
    + destruct (IH Hrest) as (pre & post & ->). by exists (String a pre), post.
  - intros (pre & post & ->). induction pre as [|a pre IH].
    + change ("" +:+ sig +:+ post) with (sig +:+ post).
      apply str_in_prefix, prefix_append.
    + rewrite append_cons. cbn [str_in]. rewrite IH. apply orb_true_r.
Qed.

Lemma any_signature_iff (sigs : list string) (text : string) :
  any_signature sigs text = true ↔ ∃ sig, sig ∈ sigs ∧ str_in sig text = true.
Proof.
  split.
  - induction sigs as [|s sigs IH]; cbn [any_signature]; [done|].
    destruct (str_in s text) eqn:Hs.
    + intros _. exists s. split; [apply list_elem_of_here | done].
    + intros Hrest. destruct (IH Hrest) as (sig & Hin & Hsig).
      exists sig. split; [by apply list_elem_of_further | done].
  - intros (sig & Hin & Hsig). by apply (any_signature_elem sig).
Qed.

(** X1.  [PayloadRule.check] answers true exactly when one of the configured
    signatures occurs in the payload as a contiguous substring. *)
Theorem PayloadRule_check_substring (self : PayloadRule) (cell : ATMCell) :
  PayloadRule_check self cell = true ↔
  ∃ sig pre post, sig ∈ signatures self ∧ payload cell = pre +:+ sig +:+ post.
Proof.
  unfold PayloadRule_check. rewrite any_signature_iff. split.
  - intros (sig & Hin & Hsig). apply str_in_iff in Hsig as (pre & post & Heq).
    by exists sig, pre, post.
  - intros (sig & pre & post & Hin & Heq). exists sig. split; [done|].
    apply str_in_iff. by exists pre, post.
Qed.

(** X2.  An empty signature occurs in every payload: a filter whose
    signature list holds the empty string forwards no cell at all. *)
Theorem empty_signature_blocks_everything (f : ATMFilter) (cell : ATMCell) (now : Q) :
  "" ∈ signatures (payload_rule f) →
  PayloadRule_check (payload_rule f) cell = true ∧
  (process f cell now).1 ≠ ("forward", None).
Proof.
  intros Hin.
  assert (str_in "" (payload cell) = true) as Hsig by (by destruct (payload cell)).
  split; [by apply (any_signature_elem "")|].
  pose proof (process_signature_drop f cell now "" Hin Hsig) as Hv.
  intros Heq. rewrite Heq in Hv.
  repeat (apply elem_of_cons in Hv as [Hv | Hv]; [done|]). by apply elem_of_nil in Hv.
Qed.

Lemma empty_signature_blocks_everything_witness :
  (process (ATMFilter_init None (Some (PayloadRule_init (Some [""]))) None)
     (mkCell 0 10 "NORMALDATA" false 0) 0).1 ≠ ("forward", None).
Proof.
  apply (empty_signature_blocks_everything
           (ATMFilter_init None (Some (PayloadRule_init (Some [""]))) None)
           (mkCell 0 10 "NORMALDATA" false 0) 0).
  apply list_elem_of_here.
Defined.

(** X3.  [remove_signature] deletes every entry equal to the signature and
    keeps the others; it can only turn a match into a miss; and removing a
    signature that was just appended to a list that did not hold it gives
    the list back. *)
Theorem PayloadRule_remove_signature_spec (self : PayloadRule) (signature : string) :
  (signature ∉ signatures (PayloadRule_remove_signature self signature)) ∧
  (∀ s, s ≠ signature →
        (s ∈ signatures (PayloadRule_remove_signature self signature) ↔ s ∈ signatures self)) ∧
  (∀ cell, PayloadRule_check (PayloadRule_remove_signature self signature) cell = true →
           PayloadRule_check self cell = true) ∧
  (signature ∉ signatures self →
   PayloadRule_remove_signature (PayloadRule_add_signature self signature) signature = self).
Proof.
  destruct self as [sigs]. unfold PayloadRule_remove_signature, PayloadRule_add_signature.
  cbn [signatures]. split; [|split; [|split]].
  - intros Hin. apply list_elem_of_filter in Hin. by destruct Hin as [Hne _].
  - intros s Hne. rewrite list_elem_of_filter. naive_solver.
  - intros cell. unfold PayloadRule_check. cbn [signatures]. rewrite !any_signature_iff.
    intros (sig & Hin & Hsig). exists sig. split; [|done].
    by apply list_elem_of_filter in Hin as [_ Hin].
  - intros Hnot. f_equal. rewrite filter_app.
    rewrite (filter_cons_False _ signature []) by (intros Hne; by apply Hne).
    rewrite filter_nil, app_nil_r.
    induction sigs as [|s sigs IH]; [done|].
    apply not_elem_of_cons in Hnot as [Hne Hnot].
    rewrite filter_cons_True by done. f_equal. by apply IH.
Qed.

Lemma PayloadRule_remove_signature_spec_witness :
  PayloadRule_remove_signature
    (PayloadRule_add_signature (mkPayloadRule ["BADSIG_"; "EVIL"]) "WORM") "WORM"
  = mkPayloadRule ["BADSIG_"; "EVIL"].
Proof.
  apply (PayloadRule_remove_signature_spec (mkPayloadRule ["BADSIG_"; "EVIL"]) "WORM").
  cbn [signatures]. intros Hin.
  repeat (apply elem_of_cons in Hin as [Hin | Hin]; [done|]). by apply elem_of_nil in Hin.
Defined.

(** ** The header rule *)

(** X4.  [HeaderRule.add] makes [check] answer true for that flow key and
    [remove] makes it answer false, both without effect on any other key;
    removing an absent key changes nothing (no error), and removing a key
    just added to a rule that did not hold it gives the rule back. *)
Theorem HeaderRule_add_remove (self : HeaderRule) (k : FlowKey) (cell : ATMCell) :
  (header cell = k → HeaderRule_check (HeaderRule_add self k) cell = true ∧
                     HeaderRule_check (HeaderRule_remove self k) cell = false) ∧
  (header cell ≠ k →
     HeaderRule_check (HeaderRule_add self k) cell = HeaderRule_check self cell ∧
     HeaderRule_check (HeaderRule_remove self k) cell = HeaderRule_check self cell) ∧
  (k ∉ deny_list self →
     HeaderRule_remove self k = self ∧
     HeaderRule_remove (HeaderRule_add self k) k = self).
Proof.
  destruct self as [deny]. unfold HeaderRule_check, HeaderRule_add, HeaderRule_remove.
  cbn [deny_list]. split; [|split].
  - intros <-. split.
    + apply bool_decide_eq_true_2. set_solver.
    + apply bool_decide_eq_false_2. set_solver.
  - intros Hne. split; apply bool_decide_ext; set_solver.
  - intros Hnot. split; f_equal; set_solver.
Qed.

Lemma HeaderRule_add_remove_witness :
  HeaderRule_check (HeaderRule_add (HeaderRule_init demo_deny) (2, 40)%Z)
    (mkCell 2 40 "NORMALDATA" false 0) = true ∧
  HeaderRule_check (HeaderRule_remove (HeaderRule_init demo_deny) (1, 30)%Z)
    (mkCell 1 30 "NORMALDATA" false 0) = false.
Proof.
  split.
  - by apply (HeaderRule_add_remove (HeaderRule_init demo_deny) (2, 40)%Z
                (mkCell 2 40 "NORMALDATA" false 0)).
  - by apply (HeaderRule_add_remove (HeaderRule_init demo_deny) (1, 30)%Z
                (mkCell 1 30 "NORMALDATA" false 0)).
Defined.

(** X5.  A rule built from a list denies exactly the flow keys that occur
    in the list, so duplicates and order do not matter; no list and the
    empty list both give the rule that denies nothing. *)
Theorem HeaderRule_init_check (deny : option (list FlowKey)) (cell : ATMCell) :
  (HeaderRule_check (HeaderRule_init deny) cell = true ↔ header cell ∈ default [] deny) ∧
  (∀ deny', (∀ k, k ∈ default [] deny ↔ k ∈ default [] deny') →
            HeaderRule_init deny = HeaderRule_init deny').
Proof.
  assert (∀ d : option (list FlowKey),
            deny_list (HeaderRule_init d) = list_to_set (default [] d)) as Hset.
  { intros [[|k l]|]; done. }
  split.
  - unfold HeaderRule_check. rewrite bool_decide_eq_true, Hset. apply elem_of_list_to_set.
  - intros deny' Hsame.
    destruct (HeaderRule_init deny) as [d1] eqn:E1, (HeaderRule_init deny') as [d2] eqn:E2.
    pose proof (Hset deny) as H1. pose proof (Hset deny') as H2.
    rewrite E1 in H1. rewrite E2 in H2. cbn [deny_list] in H1, H2. subst d1 d2.
    f_equal. apply set_eq. intros k. rewrite !elem_of_list_to_set. apply Hsame.
Qed.

Lemma HeaderRule_init_check_witness :
  HeaderRule_init (Some [(1, 30); (0, 10); (1, 30)]%Z)
  = HeaderRule_init (Some [(0, 10); (1, 30)]%Z).
Proof.
  apply (HeaderRule_init_check (Some [(1, 30); (0, 10); (1, 30)]%Z)
           (mkCell 0 0 "" false 0)).
  intros k. cbn [default]. set_solver.
Defined.

(** ** The token bucket, further *)

(** X6.  The first call on a bucket never refills it, however late it
    comes: it records [now] as the time of the last refill and takes a
    token when the bucket holds one. *)
Theorem allow_first_use (b : TokenBucket) (now : Q) :
  last_time b = None →
  allow b now =
    if Qleb 1 (tokens b)
    then (true, mkBucket (rate b) (capacity b) (tokens b - 1) (Some now))
    else (false, mkBucket (rate b) (capacity b) (tokens b) (Some now)).
Proof.
  intros Hnone. unfold allow. rewrite Hnone.
  destruct (Qltb_spec 0 (now - now)) as [Hpos|_]; [lra|].
  cbn [set_last_time set_tokens tokens rate capacity last_time].
  by destruct (Qleb 1 (tokens b)).
Qed.

Lemma allow_first_use_witness :
  allow (TokenBucket_init 50 20) 1000000 = (true, mkBucket 50 20 (20 - 1) (Some 1000000)).
Proof. by apply (allow_first_use (TokenBucket_init 50 20) 1000000). Defined.

(** X7.  The recorded refill time never moves backwards: after a call it
    is the later of the old value and [now], so a clock that steps back
    leaves it where it was. *)
Theorem allow_last_time_monotone (b : TokenBucket) (l now : Q) :
  last_time b = Some l →
  ∃ l', last_time (allow b now).2 = Some l' ∧ l <= l' ∧ now <= l' ∧ (l' = l ∨ l' = now).
Proof.
  intros Hl. unfold allow. rewrite Hl.
  destruct (Qltb_spec 0 (now - l)) as [Hpos|Hnp];
    cbn [set_last_time set_tokens tokens rate capacity last_time].
  - exists now.
    destruct (Qleb 1 _); cbn [snd set_last_time set_tokens last_time];
      (split; [done|]); (split; [lra|]); (split; [lra|]); by right.
  - exists l.
    destruct (Qleb 1 _); cbn [snd set_last_time set_tokens last_time]; rewrite ?Hl;
      (split; [done|]); (split; [lra|]); (split; [lra|]); by left.
Qed.

Lemma allow_last_time_monotone_witness :
  ∃ l', last_time (allow (mkBucket 1 2 (1 # 2) (Some 10)) 9).2 = Some l' ∧
        10 <= l' ∧ 9 <= l' ∧ (l' = 10 ∨ l' = 9).
Proof. by apply (allow_last_time_monotone (mkBucket 1 2 (1 # 2) (Some 10)) 10 9). Defined.

(** The first call on a bucket as its constructor leaves it. *)
Lemma allow_init (r c now : Q) :
  allow (TokenBucket_init r c) now =
    if Qleb 1 c then (true, mkBucket r c (c - 1) (Some now))
    else (false, mkBucket r c c (Some now)).
Proof.
  unfold allow, TokenBucket_init. cbn [last_time set_last_time tokens rate capacity].
  destruct (Qltb_spec 0 (now - now)) as [Hpos|_]; [lra|].
  cbn [set_last_time set_tokens tokens rate capacity last_time].
  by destruct (Qleb 1 c).
Qed.

(** A call at the very time of the last refill takes a token or does
    nothing. *)
Lemma allow_same_instant (b : TokenBucket) (t : Q) :
  last_time b = Some t →
  allow b t = if Qleb 1 (tokens b) then (true, set_tokens b (tokens b - 1)) else (false, b).
Proof.
  intros Hl. unfold allow. rewrite Hl.
  by destruct (Qltb_spec 0 (t - t)) as [Hpos|_]; [lra|].
Qed.

Lemma allow_calls_same_instant (c t : Q) (n k : nat) (b : TokenBucket) :
  last_time b = Some t →
  tokens b == c - inject_Z (Z.of_nat k) ∨
    (tokens b < 1 ∧ c < inject_Z (Z.of_nat k) + 1) →
  (λ res, res.1) <$> allow_calls b (replicate n t)
  = (λ j, Qleb (inject_Z (Z.of_nat j) + 1) c) <$> seq k n.
Proof.
  revert k b. induction n as [|n IH]; intros k b Hl Hb; [done|].
  cbn [replicate allow_calls seq fmap list_fmap].
  rewrite (allow_same_instant b t Hl).
  assert (inject_Z (Z.of_nat (S k)) == inject_Z (Z.of_nat k) + 1) as Hsucc
    by apply inject_Z_succ_nat.
  destruct (Qleb_spec 1 (tokens b)) as [Hge|Hlt];
    destruct (Qleb_spec (inject_Z (Z.of_nat k) + 1) c) as [Hin|Hout];
    cbn [fst snd]; try (exfalso; lra).
  - f_equal. apply IH; [done|]. left. cbn [set_tokens tokens]. lra.
  - f_equal. apply IH; [done|]. right. lra.
Qed.

(** X8.  A burst at a single instant: of any number of calls made at the
    same timestamp on a fresh bucket, the call number k (from 1) passes
    exactly when k <= capacity, whatever the rate is. *)
Theorem burst_at_one_instant (r c t : Q) (n : nat) :
  (λ res, res.1) <$> allow_calls (TokenBucket_init r c) (replicate n t)
  = (λ j, Qleb (inject_Z (Z.of_nat j) + 1) c) <$> seq 0 n.
Proof.
  destruct n as [|n]; [done|].
  cbn [replicate allow_calls seq fmap list_fmap].
  rewrite (allow_init r c t).
  change (inject_Z (Z.of_nat 0)) with 0.
  destruct (Qleb_spec 1 c) as [Hge|Hlt]; destruct (Qleb_spec (0 + 1) c) as [Hin|Hout];
    cbn [fst snd]; try (exfalso; lra); f_equal;
    apply (allow_calls_same_instant c t n 1); try done.
  - left. cbn [tokens]. change (inject_Z (Z.of_nat 1)) with 1. lra.
  - right. cbn [tokens]. change (inject_Z (Z.of_nat 1)) with 1. lra.
Qed.

(** ** The pipeline, further *)

(** X9.  [process] touches nothing but the bucket of the cell's own flow:
    the two rules, the set of policed flows and every other bucket are as
    before, and no bucket's rate or capacity ever changes. *)
Theorem process_frame (f : ATMFilter) (cell : ATMCell) (now : Q) :
  header_rule (process f cell now).2 = header_rule f ∧
  payload_rule (process f cell now).2 = payload_rule f ∧
  dom (policers (process f cell now).2) = dom (policers f) ∧
  (∀ k, k ≠ header cell → policers (process f cell now).2 !! k = policers f !! k) ∧
  (∀ k b, policers f !! k = Some b →
          ∃ b', policers (process f cell now).2 !! k = Some b' ∧
                rate b' = rate b ∧ capacity b' = capacity b).
Proof.
  destruct (process_rules f cell now) as [Hh Hp]. split; [done|]. split; [done|].
  assert (policers (process f cell now).2 = policers f ∨
          ∃ b, policers f !! header cell = Some b ∧
               policers (process f cell now).2
               = <[header cell := (allow b now).2]> (policers f)) as [Hsame|(b & Hb & Hnew)].
  { unfold process. destruct (HeaderRule_check (header_rule f) cell); [by left|].
    cbn zeta. destruct (policers f !! header cell) as [b|] eqn:Hb.
    - right. exists b. split; [done|].
      destruct (allow b now) as [[] b']; cbn [negb];
        [destruct (PayloadRule_check _ cell)|]; done.
    - left. by destruct (PayloadRule_check _ cell). }
  - rewrite Hsame. split; [done|]. split; [done|]. intros k b Hb. by exists b.
  - rewrite Hnew. split; [|split].
    + rewrite dom_insert_L. assert (header cell ∈ dom (policers f)) by (by apply elem_of_dom).
      set_solver.
    + intros k Hne. by rewrite lookup_insert_ne.
    + intros k b0 Hk. destruct (decide (header cell = k)) as [<-|Hne].
      * rewrite lookup_insert_eq. exists (allow b now).2. split; [done|].
        rewrite Hb in Hk. injection Hk as <-. by rewrite allow_rate, allow_capacity.
      * rewrite lookup_insert_ne by done. by exists b0.
Qed.

(** X10.  On a policed flow that is not denied the policer decides before
    the payload rule: a refused call gives "drop"/"policer" without a
    payload check, an allowed one gives the payload verdict; in both cases
    the flow's bucket is the one [allow] leaves, so a cell dropped for its
    payload has used up a token all the same. *)
Theorem process_policed (f : ATMFilter) (cell : ATMCell) (now : Q) (b : TokenBucket) :
  header cell ∉ deny_list (header_rule f) →
  policers f !! header cell = Some b →
  process f cell now =
    ((if (allow b now).1
      then if PayloadRule_check (payload_rule f) cell
           then ("drop", Some "payload") else ("forward", None)
      else ("drop", Some "policer")),
     set_policers f (<[header cell := (allow b now).2]> (policers f))).
Proof.
  intros Hnot Hb. unfold process, HeaderRule_check.
  rewrite bool_decide_eq_false_2 by done. cbn zeta. rewrite Hb.
  destruct (allow b now) as [[] b']; cbn [negb fst snd payload_rule set_policers]; [|done].
  by destruct (PayloadRule_check (payload_rule f) cell).
Qed.

Lemma process_policed_witness :
  (process
     (ATMFilter_init (Some (HeaderRule_init demo_deny)) (Some (PayloadRule_init demo_sigs))
        demo_policer_cfg)
     (mkCell 0 10 "BADSIG_5" true 0) 7).1 = ("drop", Some "payload") ∧
  (tokens <$> policers
     (process
        (ATMFilter_init (Some (HeaderRule_init demo_deny)) (Some (PayloadRule_init demo_sigs))
           demo_policer_cfg)
        (mkCell 0 10 "BADSIG_5" true 0) 7).2 !! (0, 10)%Z) = Some (20 - 1).
Proof.
  rewrite (process_policed
             (ATMFilter_init (Some (HeaderRule_init demo_deny))
                (Some (PayloadRule_init demo_sigs)) demo_policer_cfg)
             (mkCell 0 10 "BADSIG_5" true 0) 7 (TokenBucket_init 50 20)).
  - split; [reflexivity|]. cbn [snd policers set_policers]. by rewrite lookup_insert_eq.
  - vm_compute. set_solver.
  - reflexivity.
Defined.

(** ** The generated traffic *)

Ltac verdict_cases Hv :=
  repeat (apply elem_of_cons in Hv as [Hv | Hv]); [..|by apply elem_of_nil in Hv];
  injection Hv as -> ->; cbn [String.eqb Ascii.eqb Bool.eqb fst snd];
  repeat match goal with
         | |- context [dropped_key ?r] =>
             let key := eval vm_compute in (dropped_key r) in
             change (dropped_key r) with key
         end.

Section Traffic.
Context {G : Type} `{PRNG G}.

(** The label of a generated cell shows in its payload. *)
Lemma gen_next_label (gen gen' : TrafficGen) (w w' : World G) (t : Q) (cell : ATMCell) :
  gen_next gen w = Some ((t, cell), gen', w') →
  if is_malicious cell then ∃ n : Z, payload cell = "BADSIG_" +:+ pretty n
  else payload cell = "NORMALDATA".
Proof.
  unfold gen_next. destruct (Qltb _ _); [|done].
  destruct (rng_choice _ _) as [v1 g1], (rng_choice _ g1) as [v2 g2],
    (rng_random g2) as [x g3].
  destruct (Qltb x _); [destruct (rng_randint _ _ g3) as [n g4]|];
    cbn; intros [= _ <- _ _]; cbn [is_malicious payload]; [by exists n | done].
Qed.

(** X11.  Every cell the generator yields has an offset below the
    duration, a flow key from the two candidate lists, the wall clock's
    reading as its timestamp, and a payload that shows its label:
    "BADSIG_" followed by a decimal number when it is malicious,
    "NORMALDATA" when it is not. *)
Theorem gen_next_cell (gen gen' : TrafficGen) (w w' : World G) (t : Q) (cell : ATMCell) :
  choice_in_list →
  gen_next gen w = Some ((t, cell), gen', w') →
  t = gen_t gen ∧ t < gen_duration_sec gen ∧
  vpi cell ∈ [0; 1; 2]%Z ∧ vci cell ∈ [10; 20; 30; 40]%Z ∧
  timestamp cell = clock w (ticks w) ∧
  (if is_malicious cell then ∃ n : Z, payload cell = "BADSIG_" +:+ pretty n
   else payload cell = "NORMALDATA").
Proof.
  intros Hchoice Hnext. pose proof (gen_next_label _ _ _ _ _ _ Hnext) as Hlabel.
  revert Hnext. unfold gen_next.
  destruct (Qltb_spec (gen_t gen) (gen_duration_sec gen)) as [Hlt|]; [|done].
  pose proof (Hchoice [0; 1; 2]%Z (rng w) ltac:(done)) as Hvpi.
  destruct (rng_choice _ (rng w)) as [v1 g1]. cbn [fst] in Hvpi.
  pose proof (Hchoice [10; 20; 30; 40]%Z g1 ltac:(done)) as Hvci.
  destruct (rng_choice _ g1) as [v2 g2]. cbn [fst] in Hvci.
  destruct (rng_random g2) as [x g3].
  destruct (Qltb x _); [destruct (rng_randint _ _ g3) as [n g4]|];
    cbn; intros [= <- <- _ _]; cbn [vpi vci timestamp]; done.
Qed.

Lemma count_cell_legit (f : ATMFilter) (s : Stats) (cell : ATMCell) (now : Q) :
  is_malicious cell = false →
  get "mal_forwarded" (count_cell f s cell now).2 = get "mal_forwarded" s.
Proof.
  intros Hlegit. unfold count_cell. rewrite Hlegit.
  pose proof (process_verdict f cell now) as Hv.
  destruct (process f cell now) as [[action reason] f']. cbn [fst] in Hv.
  verdict_cases Hv; get_incr; done.
Qed.

(** X12.  With "BADSIG_" among the signatures no malicious cell of the
    generated traffic is ever forwarded, whatever the malicious fraction
    and the random draws are: the run ends with mal_forwarded = 0 and a
    false negative rate of 0.0. *)
Theorem no_false_negatives
    fuel (w : World G) duration rate mal_frac deny sigs cfg seed final w1 :
  "BADSIG_" ∈ signatures (PayloadRule_init sigs) →
  run_simulation fuel w duration rate mal_frac deny sigs cfg seed = Ok (final, w1) →
  get "mal_forwarded" (counters final) = 0%Z ∧ false_negative_rate final == 0.
Proof.
  intros Hsig Hrun.
  apply run_simulation_Ok in Hrun as (gen & w0 & f' & stats & _ & Hloop & Hfin).
  apply (sim_loop_invariant_gen
           (λ _ f s, "BADSIG_" ∈ signatures (payload_rule f) ∧ counters_nonneg s ∧
                     get "mal_forwarded" s = 0%Z)) in Hloop as (_ & _ & Hn & Hmf).
  - destruct (derive_metrics_spec stats Hn) as (final' & Hfin' & [_ Hfnr] & Hget).
    rewrite Hfin in Hfin'. injection Hfin' as <-.
    rewrite Hget. split; [done|].
    rewrite Hfnr, !Hget, Hmf. unfold rate_spec.
    destruct (0 <? get "mal_total" stats)%Z; [|reflexivity].
    unfold Qdiv. apply Qmult_0_l.
  - intros g0 w' t cell g1 w'' f s now (Hs & Hn0 & Hmf0) Hnext.
    rewrite count_cell_payload_rule. split; [done|]. split; [by apply count_cell_nonneg|].
    pose proof (gen_next_label _ _ _ _ _ _ Hnext) as Hlabel.
    destruct (is_malicious cell) eqn:Hmal.
    + destruct Hlabel as [n Hpay].
      destruct (count_cell_dropped f s cell now) as [-> _]; [|done].
      apply (process_signature_drop f cell now "BADSIG_"); [done|].
      rewrite Hpay. apply str_in_prefix, prefix_append.
    + by rewrite count_cell_legit.
  - split; [done|]. split; [apply counters_nonneg_empty | apply get_empty].
Qed.

End Traffic.

Lemma Lcg_choice_in_list : @choice_in_list Z Lcg.prng.
Proof.
  intros l g Hne. cbn [rng_choice Lcg.prng Lcg.choice fst].
  apply list_elem_of_In, nth_In.
  destruct l as [|x l]; [done|].
  pose proof (Z.mod_pos_bound (g / 65536) (Z.of_nat (length (x :: l)))) as Hb.
  cbn [length] in *. lia.
Qed.

Lemma gen_next_cell_witness :
  ∃ t cell gen' w',
    gen_next (mkGen 0 (1 # 100) 1 (1 # 4)) (Lcg.world 1000) = Some ((t, cell), gen', w') ∧
    t < 1 ∧ vpi cell ∈ [0; 1; 2]%Z ∧ vci cell ∈ [10; 20; 30; 40]%Z.
Proof.
  destruct (option_is_Some_inv (gen_next (mkGen 0 (1 # 100) 1 (1 # 4)) (Lcg.world 1000)))
    as [[[[t cell] gen'] w'] Hnext]; [vm_compute; reflexivity|].
  exists t, cell, gen', w'. split; [exact Hnext|].
  destruct (gen_next_cell _ _ _ _ _ _ Lcg_choice_in_list Hnext)
    as (_ & Hlt & Hvpi & Hvci & _).
  done.
Defined.

Lemma no_false_negatives_witness :
  ∃ final w1,
    run_simulation 50 (Lcg.world 1000) (1 # 5) 100 (1 # 2)
      demo_deny demo_sigs demo_policer_cfg (Some 11%Z) = Ok (final, w1) ∧
    get "mal_forwarded" (counters final) = 0%Z ∧ false_negative_rate final == 0.
Proof.
  destruct (is_Ok_inv (run_simulation 50 (Lcg.world 1000) (1 # 5) 100 (1 # 2)
                         demo_deny demo_sigs demo_policer_cfg (Some 11%Z)))
    as [[final w1] Hsim]; [vm_compute; reflexivity|].
  exists final, w1. split; [exact Hsim|].
  assert ("BADSIG_" ∈ signatures (PayloadRule_init demo_sigs)) as Hsig
    by apply list_elem_of_here.
  exact (no_false_negatives 50 (Lcg.world 1000) (1 # 5) 100 (1 # 2)
           demo_deny demo_sigs demo_policer_cfg (Some 11%Z) final w1 Hsig Hsim).
Defined.

(** ** The counters, further *)

Lemma any_signature_false (sigs : list string) (text : string) :
  (∀ sig, sig ∈ sigs → str_in sig text = false) → any_signature sigs text = false.
Proof.
  intros Hnone. destruct (any_signature sigs text) eqn:Hany; [|done].
  apply any_signature_iff in Hany as (sig & Hin & Hsig). by rewrite (Hnone sig Hin) in Hsig.
Qed.

(** Without a signature in the payload there is no payload drop. *)
Lemma process_clean_payload (f : ATMFilter) (cell : ATMCell) (now : Q) :
  PayloadRule_check (payload_rule f) cell = false →
  (process f cell now).1 ∈
    [("drop", Some "header"); ("drop", Some "policer"); ("forward", None)].
Proof.
  intros Hpay. unfold process. destruct (HeaderRule_check (header_rule f) cell); [set_solver|].
  cbn zeta. destruct (policers f !! header cell) as [b|].
  - destruct (allow b now) as [[] b']; cbn [negb payload_rule set_policers];
      rewrite ?Hpay; set_solver.
  - rewrite Hpay. set_solver.
Qed.

Section CountersFurther.
Context {G : Type} `{PRNG G}.

Lemma count_cell_by_label (f : ATMFilter) (s : Stats) (cell : ATMCell) (now : Q) :
  counters_by_label s → counters_by_label (count_cell f s cell now).2.
Proof.
  intros (Ht & Hf & Hd). unfold count_cell, counters_by_label.
  pose proof (process_verdict f cell now) as Hv.
  destruct (process f cell now) as [[action reason] f']. cbn [fst] in Hv.
  verdict_cases Hv; destruct (is_malicious cell); get_incr; lia.
Qed.

Lemma emit_stats_of_by_label (s : Stats) :
  counters_by_label s → counters_by_label (emit_stats_of s).
Proof.
  unfold counters_by_label. rewrite !get_emit_stats_of; [done|..]; set_solver.
Qed.

(** X13.  In the dictionary [run_simulation] returns and in every event
    [run_simulation_emit] sends, the counters also split by label:
    total = legit_total + mal_total, forwarded = legit_forwarded +
    mal_forwarded and dropped = legit_dropped + mal_dropped. *)
Theorem counters_by_label_throughout
    fuel (w : World G) duration rate mal_frac deny sigs cfg upd seed :
  Forall (λ e, counters_by_label (event_stats e)) (emitted w) →
  (∀ final w1,
      run_simulation fuel w duration rate mal_frac deny sigs cfg seed = Ok (final, w1) →
      counters_by_label (counters final)) ∧
  (∀ w2,
      run_simulation_emit fuel w duration rate mal_frac deny sigs cfg upd seed = Ok w2 →
      Forall (λ e, counters_by_label (event_stats e)) (emitted w2)).
Proof.
  intros Hlog.
  assert (counters_by_label ∅) as Hempty by (unfold counters_by_label; by rewrite !get_empty).
  split.
  - intros final w1 Hrun.
    apply run_simulation_Ok in Hrun as (gen & w0 & f' & stats & _ & Hloop & Hfin).
    apply (sim_loop_invariant (λ s, counters_by_label s ∧ counters_nonneg s)) in Hloop
      as [Hc Hn].
    + destruct (derive_metrics_spec stats Hn) as (final' & Hfin' & _ & Hget).
      rewrite Hfin in Hfin'. injection Hfin' as <-.
      unfold counters_by_label. by rewrite !Hget.
    + intros f s cell now [Hc Hn].
      split; [by apply count_cell_by_label | by apply count_cell_nonneg].
    + split; [done | apply counters_nonneg_empty].
  - intros w2 Hemit.
    apply run_simulation_emit_Ok in Hemit
      as (gen & w0 & f' & stats & w' & fin & Hgen & Hloop & Hfin & ->).
    apply generate_traffic_emitted in Hgen.
    apply (emit_loop_invariant (λ s, counters_by_label s ∧ counters_nonneg s)
             (λ e, counters_by_label (event_stats e))) in Hloop as [[Hc Hn] Hev].
    + destruct (final_emit_spec stats Hn) as (final' & Hfin' & _ & Hcnt).
      rewrite Hfin in Hfin'. injection Hfin' as <-.
      apply Forall_app. split; [done|]. constructor; [|constructor].
      cbn [event_stats]. by rewrite Hcnt.
    + intros f s cell now [Hc Hn].
      split; [by apply count_cell_by_label | by apply count_cell_nonneg].
    + intros s [Hc _]. by apply emit_stats_of_by_label.
    + split; [done | apply counters_nonneg_empty].
    + by rewrite Hgen.
Qed.

Lemma rate_spec_unit (num den : Z) :
  (0 <= num)%Z → (num <= den)%Z → 0 <= rate_spec num den ∧ rate_spec num den <= 1.
Proof.
  intros Hnum Hle. unfold rate_spec. destruct (Z.ltb_spec 0 den) as [Hpos|]; [|lra].
  assert (0 < inject_Z den) as Hden by (unfold Qlt; cbn; lia).
  split.
  - apply Qle_shift_div_l; [done|]. rewrite Qmult_0_l. unfold Qle. cbn. lia.
  - apply Qle_shift_div_r; [done|]. rewrite Qmult_1_l. unfold Qle. cbn. lia.
Qed.

(** X14.  Both derived rates of a run lie between 0 and 1. *)
Theorem derived_rates_in_unit_interval
    fuel (w : World G) duration rate mal_frac deny sigs cfg seed final w1 :
  run_simulation fuel w duration rate mal_frac deny sigs cfg seed = Ok (final, w1) →
  (0 <= false_positive_rate final ∧ false_positive_rate final <= 1) ∧
  (0 <= false_negative_rate final ∧ false_negative_rate final <= 1).
Proof.
  intros Hrun.
  apply run_simulation_Ok in Hrun as (gen & w0 & f' & stats & _ & Hloop & Hfin).
  apply (sim_loop_invariant (λ s, counters_consistent s ∧ counters_nonneg s)) in Hloop
    as [Hc Hn].
  - destruct (derive_metrics_spec stats Hn) as (final' & Hfin' & [Hfpr Hfnr] & Hget).
    rewrite Hfin in Hfin'. injection Hfin' as <-.
    rewrite Hfpr, Hfnr, !Hget. destruct Hc as (_ & Hl & Hm & _).
    pose proof (Hn "legit_dropped"). pose proof (Hn "legit_forwarded").
    pose proof (Hn "mal_dropped"). pose proof (Hn "mal_forwarded").
    split; apply rate_spec_unit; lia.
  - intros f s cell now [Hc Hn].
    split; [by apply count_cell_consistent | by apply count_cell_nonneg].
  - split; [apply counters_consistent_empty | apply counters_nonneg_empty].
Qed.

(** X15.  When no configured signature occurs in "NORMALDATA", no
    legitimate cell of the generated traffic is dropped for its payload:
    every legitimate drop was made by the header rule or the policer. *)
Theorem legit_drops_are_header_or_policer
    fuel (w : World G) duration rate mal_frac deny sigs cfg seed final w1 :
  (∀ sig, sig ∈ signatures (PayloadRule_init sigs) → str_in sig "NORMALDATA" = false) →
  run_simulation fuel w duration rate mal_frac deny sigs cfg seed = Ok (final, w1) →
  (get "legit_dropped" (counters final)
   <= get "dropped_header" (counters final) + get "dropped_policer" (counters final))%Z.
Proof.
  intros Hclean Hrun.
  apply run_simulation_Ok in Hrun as (gen & w0 & f' & stats & _ & Hloop & Hfin).
  apply (sim_loop_invariant_gen
           (λ _ f s, payload_rule f = PayloadRule_init sigs ∧ counters_nonneg s ∧
                     (get "legit_dropped" s
                      <= get "dropped_header" s + get "dropped_policer" s)%Z)) in Hloop
    as (_ & _ & Hn & Hle).
  - destruct (derive_metrics_spec stats Hn) as (final' & Hfin' & _ & Hget).
    rewrite Hfin in Hfin'. injection Hfin' as <-. by rewrite !Hget.
  - intros g0 w' t cell g1 w'' f s now (Hp & Hn0 & Hle0) Hnext.
    rewrite count_cell_payload_rule. split; [done|]. split; [by apply count_cell_nonneg|].
    pose proof (gen_next_label _ _ _ _ _ _ Hnext) as Hlabel.
    pose proof (Hn0 "dropped_header"). pose proof (Hn0 "dropped_policer").
    unfold count_cell. destruct (is_malicious cell) eqn:Hmal.
    + pose proof (process_verdict f cell now) as Hv.
      destruct (process f cell now) as [[action reason] f1]. cbn [fst] in Hv.
      verdict_cases Hv; get_incr; lia.
    + assert (PayloadRule_check (payload_rule f) cell = false) as Hpay.
      { unfold PayloadRule_check. rewrite Hp, Hlabel. by apply any_signature_false. }
      pose proof (process_clean_payload f cell now Hpay) as Hv.
      destruct (process f cell now) as [[action reason] f1]. cbn [fst] in Hv.
      verdict_cases Hv; get_incr; lia.
  - split; [done|]. split; [apply counters_nonneg_empty|]. by rewrite !get_empty.
Qed.

End CountersFurther.

Lemma counters_by_label_throughout_witness :
  ∃ final w1 w2,
    run_simulation 50 (Lcg.world 1000) (1 # 5) 100 (1 # 4)
      demo_deny demo_sigs demo_policer_cfg (Some 7%Z) = Ok (final, w1) ∧
    run_simulation_emit 50 (Lcg.world 1000) (1 # 5) 100 (1 # 4)
      demo_deny demo_sigs demo_policer_cfg (1 # 200) (Some 7%Z) = Ok w2 ∧
    counters_by_label (counters final) ∧
    Forall (λ e, counters_by_label (event_stats e)) (emitted w2).
Proof.
  destruct (is_Ok_inv (run_simulation 50 (Lcg.world 1000) (1 # 5) 100 (1 # 4)
                         demo_deny demo_sigs demo_policer_cfg (Some 7%Z)))
    as [[final w1] Hsim]; [vm_compute; reflexivity|].
  destruct (is_Ok_inv (run_simulation_emit 50 (Lcg.world 1000) (1 # 5) 100 (1 # 4)
                         demo_deny demo_sigs demo_policer_cfg (1 # 200) (Some 7%Z)))
    as [w2 Hemit]; [vm_compute; reflexivity|].
  exists final, w1, w2. split; [exact Hsim|]. split; [exact Hemit|].
  destruct (counters_by_label_throughout 50 (Lcg.world 1000) (1 # 5) 100 (1 # 4)
              demo_deny demo_sigs demo_policer_cfg (1 # 200) (Some 7%Z)) as [H1 H2];
    [constructor|].
  split; [by apply (H1 final w1) | by apply H2].
Defined.

Lemma derived_rates_in_unit_interval_witness :
  ∃ final w1,
    run_simulation 50 (Lcg.world 1000) (1 # 5) 100 (1 # 4)
      demo_deny demo_sigs demo_policer_cfg (Some 7%Z) = Ok (final, w1) ∧
    (0 <= false_positive_rate final ∧ false_positive_rate final <= 1) ∧
    (0 <= false_negative_rate final ∧ false_negative_rate final <= 1).
Proof.
  destruct (is_Ok_inv (run_simulation 50 (Lcg.world 1000) (1 # 5) 100 (1 # 4)
                         demo_deny demo_sigs demo_policer_cfg (Some 7%Z)))
    as [[final w1] Hsim]; [vm_compute; reflexivity|].
  exists final, w1. split; [exact Hsim|].
  exact (derived_rates_in_unit_interval 50 (Lcg.world 1000) (1 # 5) 100 (1 # 4)
           demo_deny demo_sigs demo_policer_cfg (Some 7%Z) final w1 Hsim).
Defined.

Lemma legit_drops_are_header_or_policer_witness :
  ∃ final w1,
    run_simulation 50 (Lcg.world 1000) (1 # 5) 100 (1 # 4)
      demo_deny demo_sigs demo_policer_cfg (Some 7%Z) = Ok (final, w1) ∧
    (get "legit_dropped" (counters final)
     <= get "dropped_header" (counters final) + get "dropped_policer" (counters final))%Z.
Proof.
  destruct (is_Ok_inv (run_simulation 50 (Lcg.world 1000) (1 # 5) 100 (1 # 4)
                         demo_deny demo_sigs demo_policer_cfg (Some 7%Z)))
    as [[final w1] Hsim]; [vm_compute; reflexivity|].
  exists final, w1. split; [exact Hsim|].
  apply (legit_drops_are_header_or_policer 50 (Lcg.world 1000) (1 # 5) 100 (1 # 4)
           demo_deny demo_sigs demo_policer_cfg (Some 7%Z) final w1); [|exact Hsim].
  intros sig Hin. change (signatures (PayloadRule_init demo_sigs)) with ["BADSIG_"] in Hin.
  apply list_elem_of_singleton in Hin as ->. reflexivity.
Defined.

(** ** Degenerate runs *)

Section Degenerate.
Context {G : Type} `{PRNG G}.

(** X16.  A run whose duration is not positive generates no cell: for a
    non-zero rate [run_simulation] returns at once, with no counter set and
    both rates 0.0, having read the clock once. *)
Theorem run_simulation_no_duration
    fuel (w : World G) duration rate mal_frac deny sigs cfg seed :
  duration <= 0 → ¬ rate == 0 →
  ∃ w1, run_simulation fuel w duration rate mal_frac deny sigs cfg seed
        = Ok (mkFinal ∅ 0 0, w1) ∧ ticks w1 = S (ticks w).
Proof.
  intros Hdur Hrate. unfold run_simulation, generate_traffic, float_div.
  destruct (Qeq_bool rate 0) eqn:E; [by apply Qeq_bool_iff in E|].
  cbn [time_time mbind outcome_bind].
  assert (∀ g w0 f s, sim_loop fuel (clock w (ticks w))
                        (mkGen 0 (1 / rate) duration g) w0 f s = Ok (f, s, w0)) as Hloop.
  { intros g w0 f s.
    assert (gen_next (mkGen 0 (1 / rate) duration g) w0 = None) as Hnone
      by (apply gen_next_None; cbn [gen_t gen_duration_sec]; lra).
    destruct fuel; cbn [sim_loop]; by rewrite Hnone. }
  rewrite Hloop. cbn [mbind outcome_bind]. eexists. split; [reflexivity|].
  by destruct seed.
Qed.

(** X17.  A rate of zero stops both runners with [ZeroDivisionError] at
    [dt = 1.0 / total_rate], before any cell is generated. *)
Theorem run_simulation_zero_rate
    fuel (w : World G) duration rate mal_frac deny sigs cfg upd seed :
  rate == 0 →
  run_simulation fuel w duration rate mal_frac deny sigs cfg seed = ZeroDivisionError ∧
  run_simulation_emit fuel w duration rate mal_frac deny sigs cfg upd seed = ZeroDivisionError.
Proof.
  intros Hrate. unfold run_simulation, run_simulation_emit, generate_traffic, float_div.
  apply Qeq_bool_iff in Hrate. by rewrite Hrate.
Qed.

Lemma gen_next_not_None (gen : TrafficGen) (w : World G) :
  gen_t gen < gen_duration_sec gen → gen_next gen w ≠ None.
Proof.
  intros Ht. unfold gen_next.
  destruct (Qltb_spec (gen_t gen) (gen_duration_sec gen)); [|done].
  destruct (rng_choice _ _) as [v1 g1], (rng_choice _ g1) as [v2 g2],
    (rng_random g2) as [x g3].
  destruct (Qltb x _); [destruct (rng_randint _ _ g3) as [n g4]|]; done.
Qed.

Lemma sim_loop_diverges fuel now_base gen (w : World G) f stats :
  gen_dt gen <= 0 → gen_t gen < gen_duration_sec gen →
  sim_loop fuel now_base gen w f stats = OutOfFuel.
Proof.
  revert gen w f stats. induction fuel as [|fuel IH]; intros gen w f stats Hdt Ht;
    cbn [sim_loop]; pose proof (gen_next_not_None gen w Ht) as Hsome;
    destruct (gen_next gen w) as [[[[t cell] gen1] w1]|] eqn:Hgen; try done.
  apply gen_next_Some in Hgen. subst gen1.
  destruct (count_cell f stats cell (now_base + t)) as [f1 stats1].
  apply IH; cbn [gen_t gen_dt gen_duration_sec]; [done|lra].
Qed.

(** X18.  With a negative rate and a positive duration the generator's
    time runs backwards and its loop never ends: [run_simulation] returns
    under no step budget. *)
Theorem run_simulation_negative_rate
    fuel (w : World G) duration rate mal_frac deny sigs cfg seed :
  rate < 0 → 0 < duration →
  run_simulation fuel w duration rate mal_frac deny sigs cfg seed = OutOfFuel.
Proof.
  intros Hrate Hdur. unfold run_simulation, generate_traffic, float_div.
  destruct (Qeq_bool rate 0) eqn:E; [apply Qeq_bool_iff in E; lra|].
  cbn [time_time mbind outcome_bind].
  rewrite sim_loop_diverges; [done| |done].
  cbn [gen_dt]. unfold Qdiv. rewrite Qmult_1_l.
  assert (0 < / - rate) as Hinv by (apply Qinv_lt_0_compat; lra).
  assert (/ - rate == - / rate) as Heq by (field; lra).
  lra.
Qed.

End Degenerate.

Lemma run_simulation_no_duration_witness :
  ∃ w1, run_simulation 0 (Lcg.world 1000) 0 200 (1 # 10)
          demo_deny demo_sigs demo_policer_cfg None = Ok (mkFinal ∅ 0 0, w1) ∧
        ticks w1 = 1%nat.
Proof.
  apply (run_simulation_no_duration 0 (Lcg.world 1000) 0 200 (1 # 10)
           demo_deny demo_sigs demo_policer_cfg None); [lra|].
  intros Heq. vm_compute in Heq. discriminate.
Defined.

Lemma run_simulation_zero_rate_witness :
  run_simulation 10 (Lcg.world 1000) 5 0 (1 # 10)
    demo_deny demo_sigs demo_policer_cfg (Some 1%Z) = ZeroDivisionError ∧
  run_simulation_emit 10 (Lcg.world 1000) 5 0 (1 # 10)
    demo_deny demo_sigs demo_policer_cfg (1 # 2) (Some 1%Z) = ZeroDivisionError.
Proof.
  apply (run_simulation_zero_rate 10 (Lcg.world 1000) 5 0 (1 # 10)
           demo_deny demo_sigs demo_policer_cfg (1 # 2) (Some 1%Z)).
  reflexivity.
Defined.

Lemma run_simulation_negative_rate_witness :
  run_simulation 1000 (Lcg.world 1000) 5 (-200) (1 # 10)
    demo_deny demo_sigs demo_policer_cfg (Some 1%Z) = OutOfFuel.
Proof.
  apply (run_simulation_negative_rate 1000 (Lcg.world 1000) 5 (-200) (1 # 10)
           demo_deny demo_sigs demo_policer_cfg (Some 1%Z)); lra.
Defined.

(** ** A filter without rules *)

Lemma process_rule_free (f : ATMFilter) (cell : ATMCell) (now : Q) :
  deny_list (header_rule f) = ∅ → signatures (payload_rule f) = [] → policers f = ∅ →
  process f cell now = (("forward", None), f).
Proof.
  intros Hd Hs Hp. unfold process, HeaderRule_check, PayloadRule_check.
  rewrite Hd, bool_decide_eq_false_2 by set_solver. cbn zeta.
  by rewrite Hp, lookup_empty, Hs.
Qed.

Lemma process_no_rules (deny : option (list FlowKey)) (sigs : option (list string))
    (cfg : option (gmap FlowKey (Q * Q))) (cell : ATMCell) (now : Q) :
  default [] deny = [] → default [] sigs = [] → default ∅ cfg = ∅ →
  process (ATMFilter_init (Some (HeaderRule_init deny)) (Some (PayloadRule_init sigs)) cfg)
    cell now
  = (("forward", None),
     ATMFilter_init (Some (HeaderRule_init deny)) (Some (PayloadRule_init sigs)) cfg).
Proof.
  intros Hdeny Hsigs Hcfg. apply process_rule_free.
  - by destruct deny as [[|]|].
  - by destruct sigs as [[|]|].
  - cbn [ATMFilter_init policers]. by rewrite Hcfg, fmap_empty.
Qed.

Section NoRules.
Context {G : Type} `{PRNG G}.

(** X19.  A filter with no denied flow, no signature and no policer
    forwards every cell: the run ends with nothing dropped, a false
    positive rate of 0.0 and, as soon as one malicious cell was generated,
    a false negative rate of 1.0. *)
Theorem no_rules_forward_everything
    fuel (w : World G) duration rate mal_frac deny sigs cfg seed final w1 :
  default [] deny = [] → default [] sigs = [] → default ∅ cfg = ∅ →
  run_simulation fuel w duration rate mal_frac deny sigs cfg seed = Ok (final, w1) →
  get "dropped" (counters final) = 0%Z ∧
  get "forwarded" (counters final) = get "total" (counters final) ∧
  false_positive_rate final == 0 ∧
  ((0 < get "mal_total" (counters final))%Z → false_negative_rate final == 1).
Proof.
  intros Hdeny Hsigs Hcfg Hrun.
  apply run_simulation_Ok in Hrun as (gen & w0 & f' & stats & _ & Hloop & Hfin).
  apply (sim_loop_invariant_gen
           (λ _ f s,
              f = ATMFilter_init (Some (HeaderRule_init deny)) (Some (PayloadRule_init sigs))
                    cfg ∧
              counters_consistent s ∧ counters_nonneg s ∧
              get "dropped" s = 0%Z ∧ get "legit_dropped" s = 0%Z ∧
              get "mal_dropped" s = 0%Z)) in Hloop
    as (_ & _ & Hc & Hn & Hd & Hld & Hmd).
  - destruct (derive_metrics_spec stats Hn) as (final' & Hfin' & [Hfpr Hfnr] & Hget).
    rewrite Hfin in Hfin'. injection Hfin' as <-.
    rewrite Hfpr, Hfnr, !Hget. destruct Hc as (Ht & _ & Hm & _).
    split; [done|]. split; [lia|]. unfold rate_spec. split.
    + rewrite Hld. destruct (0 <? get "legit_total" stats)%Z; [|reflexivity].
      unfold Qdiv. apply Qmult_0_l.
    + intros Hpos. rewrite Hm, Hmd, Z.add_0_r in *.
      apply Z.ltb_lt in Hpos as Hpos'. rewrite Hpos'.
      apply Qmult_inv_r. unfold Qeq. cbn. lia.
  - intros g0 w' t cell g1 w'' f s now (-> & Hc0 & Hn0 & Hd0 & Hld0 & Hmd0) Hnext.
    pose proof (count_cell_consistent
                  (ATMFilter_init (Some (HeaderRule_init deny))
                     (Some (PayloadRule_init sigs)) cfg) s cell now Hc0) as Hc1.
    pose proof (count_cell_nonneg
                  (ATMFilter_init (Some (HeaderRule_init deny))
                     (Some (PayloadRule_init sigs)) cfg) s cell now Hn0) as Hn1.
    revert Hc1 Hn1. unfold count_cell.
    rewrite (process_no_rules deny sigs cfg cell now Hdeny Hsigs Hcfg).
    cbn [String.eqb Ascii.eqb Bool.eqb fst snd]. intros Hc1 Hn1.
    split; [done|]. split; [done|]. split; [done|].
    destruct (is_malicious cell); get_incr; done.
  - split; [done|]. split; [apply counters_consistent_empty|].
    split; [apply counters_nonneg_empty|]. by rewrite !get_empty.
Qed.

End NoRules.

Lemma no_rules_forward_everything_witness :
  ∃ final w1,
    run_simulation 50 (Lcg.world 1000) (1 # 5) 100 (1 # 2) None (Some []) None (Some 5%Z)
    = Ok (final, w1) ∧
    get "dropped" (counters final) = 0%Z ∧
    get "forwarded" (counters final) = get "total" (counters final) ∧
    false_positive_rate final == 0.
Proof.
  destruct (is_Ok_inv (run_simulation 50 (Lcg.world 1000) (1 # 5) 100 (1 # 2)
                         None (Some []) None (Some 5%Z)))
    as [[final w1] Hsim]; [vm_compute; reflexivity|].
  exists final, w1. split; [exact Hsim|].
  destruct (no_rules_forward_everything 50 (Lcg.world 1000) (1 # 5) 100 (1 # 2)
              None (Some []) None (Some 5%Z) final w1 eq_refl eq_refl eq_refl Hsim)
    as (Hd & Hf & Hfpr & _).
  exact (conj Hd (conj Hf Hfpr)).
Defined.

(** ** The event stream of [run_simulation_emit] *)

Section Stream.
Context {G : Type} `{PRNG G}.

Lemma count_cell_total (f : ATMFilter) (s : Stats) (cell : ATMCell) (now : Q) :
  get "total" (count_cell f s cell now).2 = (get "total" s + 1)%Z.
Proof.
  unfold count_cell. pose proof (process_verdict f cell now) as Hv.
  destruct (process f cell now) as [[action reason] f']. cbn [fst] in Hv.
  verdict_cases Hv; destruct (is_malicious cell); get_incr; done.
Qed.

(** The loop only appends [sim_update] events, at most one per cell. *)
Lemma emit_loop_log fuel now_base upd gen (w : World G) f stats last bc f' stats' w' :
  emit_loop fuel now_base upd gen w f stats last bc = Ok (f', stats', w') →
  ∃ updates,
    emitted w' = emitted w ++ updates ∧ Forall is_sim_update updates ∧
    (Z.of_nat (length updates) <= get "total" stats' - get "total" stats)%Z.
Proof.
  revert gen w f stats last bc.
  induction fuel as [|fuel IH]; intros gen w f stats last bc;
    cbn [emit_loop]; destruct (gen_next gen w) as [[[[t cell] gen1] w1]|] eqn:Hgen;
    try (intros [= <- <- <-]; exists []; rewrite app_nil_r; cbn [length];
         split; [done|]; split; [constructor|lia]); try done.
  apply gen_next_emitted in Hgen.
  pose proof (count_cell_total f stats cell (now_base + t)) as Htot.
  destruct (count_cell f stats cell (now_base + t)) as [f1 stats1]. cbn [snd] in Htot.
  cbn [time_time]. destruct (Qleb upd _); intros Hloop;
    apply IH in Hloop as (updates & Hlog & Hupd & Hlen);
    cbn [emitted socketio_emit] in Hlog; rewrite Hgen in Hlog.
  - exists (sim_update (emit_stats_of stats1) :: updates).
    split; [by rewrite Hlog, <- app_assoc|]. split; [by constructor|].
    cbn [length]. lia.
  - exists updates. split; [done|]. split; [done|]. lia.
Qed.

(** X20.  What [run_simulation_emit] sends is a stream of [sim_update]
    events, at most one per processed cell, closed by exactly one
    [sim_done]. *)
Theorem emit_stream_shape
    fuel (w : World G) duration rate mal_frac deny sigs cfg upd seed w2 :
  run_simulation_emit fuel w duration rate mal_frac deny sigs cfg upd seed = Ok w2 →
  ∃ updates final,
    emitted w2 = emitted w ++ updates ++ [sim_done final] ∧
    Forall is_sim_update updates ∧
    (Z.of_nat (length updates) <= get "total" (counters final))%Z.
Proof.
  intros Hrun.
  apply run_simulation_emit_Ok in Hrun
    as (gen & w0 & f' & stats & w' & fin & Hgen & Hloop & Hfin & Hlog).
  apply generate_traffic_emitted in Hgen. cbn [time_time snd emitted] in Hgen.
  pose proof Hloop as Hinv.
  apply (emit_loop_invariant (λ s, counters_nonneg s) (λ _, True)) in Hinv as [Hn _];
    [|intros; by apply count_cell_nonneg|done|apply counters_nonneg_empty|by apply Forall_true].
  apply emit_loop_log in Hloop as (updates & Hups & Hupd & Hlen).
  destruct (final_emit_spec stats Hn) as (final' & Hfin' & _ & Hcnt).
  rewrite Hfin in Hfin'. injection Hfin' as Heq. subst final'.
  exists updates, fin. split; [|split; [done|]].
  - by rewrite Hlog, Hups, Hgen, <- app_assoc.
  - rewrite Hcnt. rewrite get_empty in Hlen. lia.
Qed.

(** The loop of [run_simulation_emit] counts as the loop of
    [run_simulation] does, on any two clocks. *)
Lemma emit_loop_shift (d base1 base2 upd : Q) :
  base2 == base1 + d →
  ∀ fuel1 fuel2 gen (w1 w2 : World G) f1 f2 stats last bc f1' f2' s1 s2 w1' w2',
    rng w1 = rng w2 → filter_shift d f1 f2 →
    sim_loop fuel1 base1 gen w1 f1 stats = Ok (f1', s1, w1') →
    emit_loop fuel2 base2 upd gen w2 f2 stats last bc = Ok (f2', s2, w2') →
    s1 = s2.
Proof.
  intros Hbase. induction fuel1 as [|fuel1 IH];
    intros fuel2 gen w1 w2 f1 f2 stats last bc f1' f2' s1 s2 w1' w2' Hrng Hf;
    pose proof (gen_next_shift gen w1 w2 Hrng) as Hgen;
    destruct fuel2 as [|fuel2]; cbn [sim_loop emit_loop];
    destruct (gen_next gen w1) as [[[[t1 c1] g1] w1n]|],
             (gen_next gen w2) as [[[[t2 c2] g2] w2n]|]; try done;
    try (intros [= _ <- _] [= _ <- _]; done).
  destruct Hgen as (<- & Hc & <- & Hrng').
  assert (base2 + t1 == base1 + t1 + d) as Hnow by lra.
  destruct (count_cell_shift d (base1 + t1) (base2 + t1) f1 f2 stats c1 c2 Hf Hc Hnow)
    as [Hf' Hs].
  destruct (count_cell f1 stats c1 (base1 + t1)) as [f1n s1n],
           (count_cell f2 stats c2 (base2 + t1)) as [f2n s2n].
  cbn [fst snd] in Hf', Hs. subst s2n. cbn [time_time].
  destruct (Qleb upd _); by apply IH.
Qed.

(** X21.  The web runner and the command-line runner agree: started with
    the same parameters, configuration and seed at the same reading of the
    wall clock, the [sim_done] event of [run_simulation_emit] carries the
    same value for every counter and the same two rates as the dictionary
    [run_simulation] returns, whatever the later clock readings and the
    update interval are. *)
Theorem emit_agrees_with_run_simulation
    fuel1 fuel2 (w1 w2 : World G) duration rate mal_frac deny sigs cfg upd (seed : Z)
    final w1' w2' :
  clock w1 (ticks w1) = clock w2 (ticks w2) →
  run_simulation fuel1 w1 duration rate mal_frac deny sigs cfg (Some seed) = Ok (final, w1') →
  run_simulation_emit fuel2 w2 duration rate mal_frac deny sigs cfg upd (Some seed) = Ok w2' →
  ∃ final',
    last (emitted w2') = Some (sim_done final') ∧
    (∀ k, get k (counters final') = get k (counters final)) ∧
    false_positive_rate final' = false_positive_rate final ∧
    false_negative_rate final' = false_negative_rate final.
Proof.
  intros Hbase0 Hrun1 Hrun2.
  apply run_simulation_Ok in Hrun1 as (gen1 & w01 & f1' & s1 & Hgen1 & Hloop1 & Hfin1).
  apply run_simulation_emit_Ok in Hrun2
    as (gen2 & w02 & f2' & s2 & w' & fin & Hgen2 & Hloop2 & Hfin2 & Hlog).
  unfold generate_traffic in Hgen1, Hgen2.
  destruct (float_div 1 rate) as [dt| |]; cbn [mbind outcome_bind] in Hgen1, Hgen2; try done.
  injection Hgen1 as <- <-. injection Hgen2 as <- <-.
  assert (s1 = s2) as ->.
  { assert ((time_time w2).1 == (time_time w1).1 + 0) as Hbase
      by (cbn [time_time fst]; rewrite Hbase0; lra).
    eapply (emit_loop_shift _ _ _ upd Hbase); [| |exact Hloop1|exact Hloop2].
    - reflexivity.
    - apply ATMFilter_init_shift. }
  pose proof Hloop1 as Hn.
  apply (sim_loop_invariant (λ s, counters_nonneg s)) in Hn;
    [|intros; by apply count_cell_nonneg|apply counters_nonneg_empty].
  destruct (derive_metrics_spec s2 Hn) as (fa & Hfa & [Hfpr Hfnr] & Hget).
  destruct (final_emit_spec s2 Hn) as (fb & Hfb & [Hfpr' Hfnr'] & Hcnt).
  rewrite Hfin1 in Hfa. injection Hfa as Ha. subst fa.
  rewrite Hfin2 in Hfb. injection Hfb as Hb. subst fb.
  exists fin. split; [rewrite Hlog; apply last_snoc|].
  split; [intros k; by rewrite Hcnt, Hget|].
  by rewrite Hfpr, Hfnr, Hfpr', Hfnr', !Hget, Hcnt.
Qed.

End Stream.

Lemma emit_stream_shape_witness :
  ∃ w2 updates final,
    run_simulation_emit 50 (Lcg.world 1000) (1 # 5) 100 (1 # 4)
      demo_deny demo_sigs demo_policer_cfg (1 # 200) (Some 7%Z) = Ok w2 ∧
    emitted w2 = updates ++ [sim_done final] ∧ Forall is_sim_update updates ∧
    (Z.of_nat (length updates) <= get "total" (counters final))%Z.
Proof.
  destruct (is_Ok_inv (run_simulation_emit 50 (Lcg.world 1000) (1 # 5) 100 (1 # 4)
                         demo_deny demo_sigs demo_policer_cfg (1 # 200) (Some 7%Z)))
    as [w2 Hemit]; [vm_compute; reflexivity|].
  destruct (emit_stream_shape 50 (Lcg.world 1000) (1 # 5) 100 (1 # 4)
              demo_deny demo_sigs demo_policer_cfg (1 # 200) (Some 7%Z) w2 Hemit)
    as (updates & final & Hlog & Hupd & Hlen).
  exists w2, updates, final. exact (conj Hemit (conj Hlog (conj Hupd Hlen))).
Defined.

Lemma emit_agrees_with_run_simulation_witness :
  ∃ final w1' w2' final',
    run_simulation 50 (Lcg.world 1000) (1 # 5) 100 (1 # 4)
      demo_deny demo_sigs demo_policer_cfg (Some 7%Z) = Ok (final, w1') ∧
    run_simulation_emit 60 (mkWorld 99%Z (λ n, Lcg.clock_from 1000 (3 * n)) 0 [])
      (1 # 5) 100 (1 # 4) demo_deny demo_sigs demo_policer_cfg (1 # 200) (Some 7%Z) = Ok w2' ∧
    last (emitted w2') = Some (sim_done final') ∧
    (∀ k, get k (counters final') = get k (counters final)).
Proof.
  destruct (is_Ok_inv (run_simulation 50 (Lcg.world 1000) (1 # 5) 100 (1 # 4)
                         demo_deny demo_sigs demo_policer_cfg (Some 7%Z)))
    as [[final w1'] Hsim]; [vm_compute; reflexivity|].
  destruct (is_Ok_inv (run_simulation_emit 60
                         (mkWorld 99%Z (λ n, Lcg.clock_from 1000 (3 * n)) 0 [])
                         (1 # 5) 100 (1 # 4) demo_deny demo_sigs demo_policer_cfg
                         (1 # 200) (Some 7%Z)))
    as [w2' Hemit]; [vm_compute; reflexivity|].
  destruct (emit_agrees_with_run_simulation 50 60 (Lcg.world 1000)
              (mkWorld 99%Z (λ n, Lcg.clock_from 1000 (3 * n)) 0 [])
              (1 # 5) 100 (1 # 4) demo_deny demo_sigs demo_policer_cfg (1 # 200) 7%Z
              final w1' w2' eq_refl Hsim Hemit) as (final' & Hlast & Hget & _).
  exists final, w1', w2', final'. exact (conj Hsim (conj Hemit (conj Hlast Hget))).
Defined.

(** ** Starting a simulation, further *)

Lemma handle_start_sim_lock_owned (h : nat) (s s' : Server) :
  server_inv s → lock_owned s → handle_start_sim h s = Some s' → lock_owned s'.
Proof.
  intros (_ & Hlock & _) Hown Hstep. unfold handle_start_sim in Hstep.
  destruct (handlers s !! h) as [pc|] eqn:Hpc; [|done].
  assert (in_critical_section pc = true → sim_lock s = Some h) as Hheld
    by (intros Hin; by apply (Hlock h pc)).
  assert (∀ pc' l, in_critical_section pc' = true → sim_lock s = Some h →
                   lock_owned (set_pc h pc' (mkServer l (sim_lock s) (threads s)
                                               (handlers s) (sent s)))) as Hmove.
  { intros pc' l Hin Hl h0. unfold set_pc. cbn [sim_lock handlers]. rewrite Hl.
    intros [= <-]. exists pc'. by rewrite lookup_insert_eq. }
  destruct pc; try done.
  - destruct (sim_lock s) eqn:Hfree; [done|]. injection Hstep as <-.
    intros h0. unfold set_pc. cbn [sim_lock handlers]. intros [= <-].
    exists AtCheck. by rewrite lookup_insert_eq.
  - destruct (sim_thread_alive s); injection Hstep as <-;
      [apply (Hmove AtEmitError (sim_thread s)) | apply (Hmove AtCreate (sim_thread s))];
      auto.
  - injection Hstep as <-. intros h0. unfold set_pc. cbn [sim_lock handlers].
    rewrite (Hheld eq_refl). intros [= <-]. exists AtRelease. by rewrite lookup_insert_eq.
  - injection Hstep as <-. intros h0. unfold set_pc. cbn [sim_lock handlers].
    rewrite (Hheld eq_refl). intros [= <-]. exists AtStart. by rewrite lookup_insert_eq.
  - destruct (sim_thread s); [|done]. injection Hstep as <-.
    intros h0. unfold set_pc. cbn [sim_lock handlers].
    rewrite (Hheld eq_refl). intros [= <-]. exists AtEmitStarted. by rewrite lookup_insert_eq.
  - injection Hstep as <-. intros h0. unfold set_pc. cbn [sim_lock handlers].
    rewrite (Hheld eq_refl). intros [= <-]. exists AtRelease. by rewrite lookup_insert_eq.
  - injection Hstep as <-. intros h0. unfold set_pc. by cbn [sim_lock handlers].
Qed.

Lemma server_step_lock_owned (a : Action) (s s' : Server) :
  server_inv s → lock_owned s → server_step a s = Some s' → lock_owned s'.
Proof.
  intros Hinv Hown Hstep. destruct a as [h|h|t]; cbn [server_step] in Hstep.
  - destruct (handlers s !! h) eqn:Hnew; [done|]. injection Hstep as <-.
    intros h0 Hl. unfold set_pc in *. cbn [sim_lock handlers] in *.
    destruct (Hown h0 Hl) as (pc & Hpc & Hin). exists pc. split; [|done].
    rewrite lookup_insert_ne; [done|]. congruence.
  - by apply (handle_start_sim_lock_owned h s).
  - destruct (threads s !! t) as [[]|]; try done. by injection Hstep as <-.
Qed.

Lemma server_run_lock_owned (acts : list Action) (s s' : Server) :
  server_inv s → lock_owned s → server_run acts s = Some s' → lock_owned s'.
Proof.
  revert s. induction acts as [|a acts IH]; intros s Hinv Hown; cbn [server_run].
  - by intros [= <-].
  - destruct (server_step a s) as [s1|] eqn:Hstep; [|done]. cbn.
    apply IH; [by apply (server_step_inv a s) | by apply (server_step_lock_owned a s)].
Qed.

(** X22.  The lock is never left behind and never holds anyone up for
    long: in every reachable state it is held only by an invocation that is
    inside the locked block, that invocation can always execute its next
    statement, and an invocation waiting at the block's entry can go on
    exactly when the lock is free. *)
Theorem lock_never_leaks (acts : list Action) (s : Server) :
  server_run acts server_init = Some s →
  lock_owned s ∧
  (∀ h pc, handlers s !! h = Some pc → in_critical_section pc = true →
           is_Some (handle_start_sim h s)) ∧
  (∀ h, handlers s !! h = Some AtAcquire →
        (is_Some (handle_start_sim h s) ↔ sim_lock s = None)).
Proof.
  intros Hrun.
  pose proof (server_run_inv acts server_init s server_inv_init Hrun) as Hinv.
  assert (lock_owned server_init) as Hown0 by (intros h; done).
  pose proof (server_run_lock_owned acts server_init s server_inv_init Hown0 Hrun) as Hown.
  split; [done|]. split.
  - intros h pc Hpc Hin. unfold handle_start_sim. rewrite Hpc.
    destruct Hinv as (_ & _ & _ & Hstart).
    destruct pc; try done; try by eexists.
    + by destruct (sim_thread_alive s); eexists.
    + destruct (Hstart h Hpc) as [(t & -> & _) _]. by eexists.
  - intros h Hpc. unfold handle_start_sim. rewrite Hpc.
    destruct (sim_lock s); split.
    + by intros [? ?].
    + done.
    + done.
    + intros _. by eexists.
Qed.

Lemma lock_never_leaks_witness :
  ∃ s, server_run [Arrive 0; Step 0; Step 0; Arrive 1; Step 0]%nat server_init = Some s ∧
       sim_lock s = Some 0%nat ∧
       is_Some (handle_start_sim 0%nat s) ∧ ¬ is_Some (handle_start_sim 1%nat s).
Proof.
  destruct (option_is_Some_inv
              (server_run [Arrive 0; Step 0; Step 0; Arrive 1; Step 0]%nat server_init))
    as [s Hrun]; [vm_compute; reflexivity|].
  destruct (lock_never_leaks _ s Hrun) as (Hown & Hgo & Hwait).
  assert (Some s = Some s) as Hs by reflexivity.
  rewrite <- Hrun in Hs at 1. vm_compute in Hs. injection Hs as Hs.
  assert (sim_lock s = Some 0%nat) as Hl by (by rewrite <- Hs).
  assert (handlers s !! 0%nat = Some AtStart) as H0 by (rewrite <- Hs; vm_compute; reflexivity).
  assert (handlers s !! 1%nat = Some AtAcquire) as H1
    by (rewrite <- Hs; vm_compute; reflexivity).
  exists s. split; [exact Hrun|]. split; [exact Hl|]. split.
  - exact (Hgo 0%nat AtStart H0 eq_refl).
  - intros Hsome. apply (Hwait 1%nat H1) in Hsome. rewrite Hl in Hsome. discriminate.
Defined.

(** ** What the policer guarantees *)

(** X24.  [add_signature] adds exactly the payloads that contain the new
    signature to those the rule matches. *)
Theorem PayloadRule_add_signature_check (self : PayloadRule) (signature : string)
    (cell : ATMCell) :
  PayloadRule_check (PayloadRule_add_signature self signature) cell
  = PayloadRule_check self cell || str_in signature (payload cell).
Proof.
  destruct self as [sigs]. unfold PayloadRule_check, PayloadRule_add_signature.
  cbn [signatures]. induction sigs as [|s sigs IH]; cbn [app any_signature].
  - by destruct (str_in signature (payload cell)).
  - destruct (str_in s (payload cell)); [done | apply IH].
Qed.

Lemma allow_refused (b : TokenBucket) (now : Q) :
  capacity b < 1 → tokens b < 1 →
  (allow b now).1 = false ∧ tokens (allow b now).2 < 1.
Proof.
  intros Hc Ht. unfold allow. destruct (last_time b) as [l|].
  - destruct (Qltb_spec 0 (now - l)) as [Hpos|Hnp];
      cbn [set_last_time set_tokens tokens rate capacity last_time].
    + pose proof (py_min_le_l (capacity b) (tokens b + (now - l) * rate b)) as Hmin.
      destruct (Qleb_spec 1 (py_min (capacity b) (tokens b + (now - l) * rate b)));
        [exfalso; lra|].
      cbn [fst snd set_last_time set_tokens tokens]. split; [done | lra].
    + destruct (Qleb_spec 1 (tokens b)); [exfalso; lra|]. by cbn [fst snd].
  - cbn [set_last_time set_tokens tokens rate capacity last_time].
    destruct (Qltb_spec 0 (now - now)) as [Hpos|Hnp]; [lra|].
    cbn [set_last_time tokens].
    destruct (Qleb_spec 1 (tokens b)); [exfalso; lra|]. by cbn [fst snd set_last_time tokens].
Qed.

Lemma allow_calls_never (b : TokenBucket) (ts : list Q) :
  capacity b < 1 → tokens b < 1 →
  Forall (λ res, res.1 = false) (allow_calls b ts).
Proof.
  revert b. induction ts as [|now ts IH]; intros b Hc Ht; cbn [allow_calls]; [constructor|].
  destruct (allow_refused b now Hc Ht) as [Hres Ht'].
  constructor; [done|]. apply IH; [by rewrite allow_capacity | done].
Qed.

(** X25.  A bucket whose capacity is below one token refuses every call,
    at any timestamps and for any rate. *)
Theorem capacity_below_one_never_allows (r c : Q) (ts : list Q) :
  c < 1 → Forall (λ res, res.1 = false) (allow_calls (TokenBucket_init r c) ts).
Proof. intros Hc. by apply allow_calls_never. Qed.

Lemma capacity_below_one_never_allows_witness :
  Forall (λ res, res.1 = false)
    (allow_calls (TokenBucket_init 1000 (9 # 10)) [0; 1; 5; 100]).
Proof. apply capacity_below_one_never_allows. lra. Defined.
